(** * PAC-CS email-thread classifier: a shallow embedding

    The development follows the two source files:

    - [email_classifier/classify_cli.py]: [normalize_thread], [sort_messages],
      [compute_thread_id], [classify_thread] (module [Cli]);
    - [email_classifier/rules.py]: the precompiled patterns, [_lower],
      [_last_texts], [classify_labels] (module [Rules]).

    The Python run time the program leans on is embedded next to it:
    strings as sequences of code points, [dict.get] / [dict.setdefault] on
    JSON objects, [sorted], [str.encode("utf-8")], [hashlib.sha1] and the
    fragment of [re] the patterns are written in. *)

From Stdlib Require Import ZArith Bool Ascii String Lia.
From Stdlib Require Import List Permutation Sorted.
Import ListNotations.
Local Open Scope Z_scope.

Set Implicit Arguments.

(* ================================================================== *)
(** * Python values *)
(* ================================================================== *)

Module Py.

(** A Python [str] is a sequence of Unicode code points. *)
Definition str := list Z.

(** Exceptions the classification path can raise. *)
Inductive exn := TypeError | KeyError | UnicodeEncodeError.

Inductive result (A : Type) : Type :=
| Ok (a : A)
| Raise (e : exn).
Arguments Ok {A} a.
Arguments Raise {A} e.

Definition bind {A B} (x : result A) (f : A -> result B) : result B :=
  match x with
  | Ok a => f a
  | Raise e => Raise e
  end.

Definition fmap {A B} (f : A -> B) (x : result A) : result B :=
  bind x (fun a => Ok (f a)).

(** One key of a JSON object as [json.load] delivers it: the key is
    missing, it is bound to [None], or it is bound to a value. *)
Inductive field (A : Type) : Type :=
| Absent
| Null
| Val (a : A).
Arguments Absent {A}.
Arguments Null {A}.
Arguments Val {A} a.

(** [d.get(k, dflt)]; [None] is Python's [None]. *)
Definition get {A} (f : field A) (dflt : A) : option A :=
  match f with
  | Absent => Some dflt
  | Null => None
  | Val a => Some a
  end.

(** [d.get(k)] *)
Definition get_none {A} (f : field A) : option A :=
  match f with
  | Val a => Some a
  | _ => None
  end.

(** [d[k]] *)
Definition getitem {A} (f : field A) : result (option A) :=
  match f with
  | Absent => Raise KeyError
  | Null => Ok None
  | Val a => Ok (Some a)
  end.

(** [d.setdefault(k, dflt)]: binds the key only when it is missing. *)
Definition setdefault {A} (f : field A) (dflt : A) : field A :=
  match f with
  | Absent => Val dflt
  | _ => f
  end.

(** Truth value of a string, of a list, and of a value that may be [None]. *)
Definition truthy_seq {A} (l : list A) : bool :=
  match l with
  | [] => false
  | _ :: _ => true
  end.

Definition truthy_opt {A} (truthy : A -> bool) (x : option A) : bool :=
  match x with
  | Some a => truthy a
  | None => false
  end.

(** [x or y] *)
Definition or_ {A} (truthy : A -> bool) (x : option A) (y : A) : A :=
  match x with
  | Some a => if truthy a then a else y
  | None => y
  end.

(** [a + b] on two values expected to be strings. *)
Definition add_str (a b : option str) : result str :=
  match a, b with
  | Some x, Some y => Ok (x ++ y)
  | _, _ => Raise TypeError
  end.

(** [sep.join(l)] *)
Fixpoint join (sep : str) (l : list str) : str :=
  match l with
  | [] => []
  | [x] => x
  | x :: rest => x ++ sep ++ join sep rest
  end.

(** [l[-k:]] for [k > 0] *)
Definition last_k {A} (k : nat) (l : list A) : list A :=
  skipn (length l - k) l.

(** [l[-1]] of a non-empty list, [dflt] otherwise (the callers guard it). *)
Definition last_or {A} (l : list A) (dflt : A) : A := last l dflt.

(** [a < b] on strings: lexicographic on code points. *)
Fixpoint str_lt (a b : str) : bool :=
  match a, b with
  | _, [] => false
  | [], _ :: _ => true
  | x :: a', y :: b' => (x <? y) || ((x =? y) && str_lt a' b')
  end.

(** [a <= b], as [sorted] sees it: not [b < a]. *)
Definition str_le (a b : str) : Prop := str_lt b a = false.

Fixpoint str_eqb (a b : str) : bool :=
  match a, b with
  | [], [] => true
  | x :: a', y :: b' => (x =? y) && str_eqb a' b'
  | _, _ => false
  end.

(** [sorted(l, key=key)]: the sort is stable and compares keys with [<]
    only.  Insertion from the right: an element goes in front of the first
    element whose key is not smaller than its own, so it stays ahead of the
    later elements that share its key. *)
Section Sorted.
Variable A : Type.
Variable key : A -> str.

Definition key_le (a b : A) : Prop := str_le (key a) (key b).

Fixpoint insert (x : A) (l : list A) : list A :=
  match l with
  | [] => [x]
  | y :: l' => if str_lt (key y) (key x) then y :: insert x l'
               else x :: y :: l'
  end.

Fixpoint sorted (l : list A) : list A :=
  match l with
  | [] => []
  | x :: l' => insert x (sorted l')
  end.
End Sorted.

(** ** UTF-8 *)

(** A code point that [str.encode("utf-8")] accepts: a Unicode scalar
    value.  Surrogates ([U+D800]..[U+DFFF]), which [json.load] produces from
    an unpaired [\uD8xx] escape, are refused. *)
Definition is_scalar (c : Z) : bool :=
  (0 <=? c) && (c <=? 0x10FFFF) && negb ((0xD800 <=? c) && (c <=? 0xDFFF)).

Definition encode_cp (c : Z) : list Z :=
  if c <? 0x80 then [c]
  else if c <? 0x800 then
    [Z.lor 0xC0 (Z.shiftr c 6); Z.lor 0x80 (Z.land c 0x3F)]
  else if c <? 0x10000 then
    [Z.lor 0xE0 (Z.shiftr c 12);
     Z.lor 0x80 (Z.land (Z.shiftr c 6) 0x3F);
     Z.lor 0x80 (Z.land c 0x3F)]
  else
    [Z.lor 0xF0 (Z.shiftr c 18);
     Z.lor 0x80 (Z.land (Z.shiftr c 12) 0x3F);
     Z.lor 0x80 (Z.land (Z.shiftr c 6) 0x3F);
     Z.lor 0x80 (Z.land c 0x3F)].

(** [s.encode("utf-8")] *)
Fixpoint encode_utf8 (s : str) : result (list Z) :=
  match s with
  | [] => Ok []
  | c :: s' =>
      if is_scalar c
      then bind (encode_utf8 s') (fun bs => Ok (encode_cp c ++ bs))
      else Raise UnicodeEncodeError
  end.

(** Reading a literal of this file (UTF-8 bytes) as a [str]. *)
Fixpoint decode_utf8 (bs : list Z) : str :=
  match bs with
  | [] => []
  | b0 :: r0 =>
      if b0 <? 0xC0 then b0 :: decode_utf8 r0
      else match r0 with
      | [] => [b0]
      | b1 :: r1 =>
          if b0 <? 0xE0 then
            (Z.land b0 0x1F * 64 + Z.land b1 0x3F) :: decode_utf8 r1
          else match r1 with
          | [] => [b0]
          | b2 :: r2 =>
              if b0 <? 0xF0 then
                (Z.land b0 0x0F * 4096 + Z.land b1 0x3F * 64 + Z.land b2 0x3F)
                  :: decode_utf8 r2
              else match r2 with
              | [] => [b0]
              | b3 :: r3 =>
                  (Z.land b0 0x07 * 262144 + Z.land b1 0x3F * 4096
                   + Z.land b2 0x3F * 64 + Z.land b3 0x3F) :: decode_utf8 r3
              end
          end
      end
  end.

Definition bytes_of_string (s : string) : list Z :=
  map (fun a => Z.of_nat (nat_of_ascii a)) (list_ascii_of_string s).

Definition u (s : string) : str := decode_utf8 (bytes_of_string s).

End Py.

(* ================================================================== *)
(** * [hashlib.sha1] *)
(* ================================================================== *)

Module SHA1.

Definition w32 (x : Z) : Z := x mod 2 ^ 32.

Definition add32 (x y : Z) : Z := w32 (x + y).

Definition rotl (n x : Z) : Z :=
  w32 (Z.lor (Z.shiftl x n) (Z.shiftr x (32 - n))).

(** Message padding: a [0x80] byte, zero bytes up to 56 modulo 64, and the
    bit length as a 64-bit big-endian integer. *)
Fixpoint be_bytes (n : nat) (x : Z) : list Z :=
  match n with
  | O => []
  | S n' => Z.shiftr x (8 * Z.of_nat n') mod 256 :: be_bytes n' x
  end.

Definition pad (msg : list Z) : list Z :=
  let len := Z.of_nat (length msg) in
  msg ++ [0x80] ++ repeat 0 (Z.to_nat ((55 - len) mod 64))
      ++ be_bytes 8 (8 * len).

(** 32-bit big-endian words of a byte sequence. *)
Fixpoint words (fuel : nat) (bs : list Z) : list Z :=
  match fuel, bs with
  | S f, b0 :: b1 :: b2 :: b3 :: r =>
      (b0 * 2 ^ 24 + b1 * 2 ^ 16 + b2 * 2 ^ 8 + b3) :: words f r
  | _, _ => []
  end.

(** Message schedule: sixteen words extended to eighty. *)
Fixpoint extend (n : nat) (ws : list Z) : list Z :=
  match n with
  | O => ws
  | S n' =>
      let t := length ws in
      let x := Z.lxor (Z.lxor (nth (t - 3) ws 0) (nth (t - 8) ws 0))
                      (Z.lxor (nth (t - 14) ws 0) (nth (t - 16) ws 0)) in
      extend n' (ws ++ [rotl 1 x])
  end.

Definition state := (Z * Z * Z * Z * Z)%type.

Definition f_k (t : nat) (b c d : Z) : Z * Z :=
  if (t <? 20)%nat then
    (Z.lor (Z.land b c) (Z.land (Z.lnot b) d), 0x5A827999)
  else if (t <? 40)%nat then
    (Z.lxor (Z.lxor b c) d, 0x6ED9EBA1)
  else if (t <? 60)%nat then
    (Z.lor (Z.lor (Z.land b c) (Z.land b d)) (Z.land c d), 0x8F1BBCDC)
  else
    (Z.lxor (Z.lxor b c) d, 0xCA62C1D6).

Definition round (t : nat) (wt : Z) (s : state) : state :=
  let '(a, b, c, d, e) := s in
  let '(f, k) := f_k t b c d in
  let temp := add32 (add32 (add32 (add32 (rotl 5 a) f) e) k) wt in
  (temp, a, rotl 30 b, c, d).

Fixpoint rounds (t : nat) (ws : list Z) (s : state) : state :=
  match ws with
  | [] => s
  | wt :: ws' => rounds (S t) ws' (round t wt s)
  end.

Definition compress (h : state) (block : list Z) : state :=
  let '(h0, h1, h2, h3, h4) := h in
  let '(a, b, c, d, e) := rounds 0 (extend 64 (words 16 block)) h in
  (add32 h0 a, add32 h1 b, add32 h2 c, add32 h3 d, add32 h4 e).

Fixpoint blocks (fuel : nat) (h : state) (bs : list Z) : state :=
  match fuel, bs with
  | S f, _ :: _ => blocks f (compress h (firstn 64 bs)) (skipn 64 bs)
  | _, _ => h
  end.

Definition init : state :=
  (0x67452301, 0xEFCDAB89, 0x98BADCFE, 0x10325476, 0xC3D2E1F0).

(** [hashlib.sha1(msg)]: the five state words after the last block. *)
Definition sha1 (msg : list Z) : state :=
  let p := pad msg in
  blocks (length p) init p.

(** [.hexdigest()]: forty lower-case hexadecimal digits. *)
Definition hex_digit (n : Z) : Z :=
  if n <? 10 then 48 + n else 87 + n.

Fixpoint hex_word (n : nat) (x : Z) : Py.str :=
  match n with
  | O => []
  | S n' => hex_digit (Z.shiftr x (4 * Z.of_nat n') mod 16) :: hex_word n' x
  end.

Definition hexdigest (s : state) : Py.str :=
  let '(h0, h1, h2, h3, h4) := s in
  hex_word 8 h0 ++ hex_word 8 h1 ++ hex_word 8 h2 ++ hex_word 8 h3
    ++ hex_word 8 h4.

End SHA1.

(* ================================================================== *)
(** * Character tables *)
(* ================================================================== *)

(** What the program takes from CPython's Unicode database: [str.lower] and
    the predicates behind [\w], [\s], [\d] and [re.IGNORECASE].  The tables
    are data of the interpreter, so the embedding is parametric in them;
    [Latin] below is the instance for the alphabets the patterns are written
    in, used to run the embedding on concrete threads. *)
Module Unicode.

Import Py.

Class tables : Type := {
  lower : str -> str;      (** [str.lower()] *)
  tolower : Z -> Z;        (** lower case of one code point, as [re] folds it *)
  fixes : Z -> list Z;     (** [re]'s further case equivalents of a folded
                               literal (dotless i for i, long s for s) *)
  isalnum : Z -> bool;     (** [str.isalnum] of one code point *)
  isspace : Z -> bool;     (** [str.isspace] of one code point *)
  isdecimal : Z -> bool;   (** [str.isdecimal] of one code point *)
  lower_nil : lower [] = []
}.

Definition between (lo hi c : Z) : bool := (lo <=? c) && (c <=? hi).

(** Simple lower-case mapping on Basic Latin, Latin-1 Supplement, Latin
    Extended-A, the horned letters of Latin Extended-B and Latin Extended
    Additional (all Vietnamese letters live there).  Outside these blocks
    [Latin] takes a code point for an uncased symbol: not a letter, not a
    digit, its own lower case. *)
Definition latin_tolower (c : Z) : Z :=
  if between 0x41 0x5A c then c + 32
  else if between 0xC0 0xDE c && negb (c =? 0xD7) then c + 32
  else if c =? 0x130 then 0x69
  else if c =? 0x178 then 0xFF
  else if (between 0x100 0x12F c || between 0x132 0x137 c
           || between 0x14A 0x177 c) && Z.even c then c + 1
  else if (between 0x139 0x148 c || between 0x179 0x17E c) && Z.odd c
  then c + 1
  else if (c =? 0x1A0) || (c =? 0x1AF) then c + 1
  else if c =? 0x1E9E then 0xDF
  else if (between 0x1E00 0x1E95 c || between 0x1EA0 0x1EFF c) && Z.even c
  then c + 1
  else c.

(** [str.lower] maps capital I with dot above to two code points. *)
Definition latin_lower (s : str) : str :=
  flat_map (fun c => if c =? 0x130 then [0x69; 0x307] else [latin_tolower c])
           s.

Definition latin_fixes (c : Z) : list Z :=
  if c =? 0x69 then [0x131]
  else if c =? 0x131 then [0x69]
  else if c =? 0x73 then [0x17F]
  else if c =? 0x17F then [0x73]
  else [].

Definition latin_isalnum (c : Z) : bool :=
  between 0x30 0x39 c || between 0x41 0x5A c || between 0x61 0x7A c
  || (c =? 0xAA) || (c =? 0xB2) || (c =? 0xB3) || (c =? 0xB5) || (c =? 0xB9)
  || (c =? 0xBA) || between 0xBC 0xBE c
  || between 0xC0 0xD6 c || between 0xD8 0xF6 c || between 0xF8 0x24F c
  || between 0x1E00 0x1EFF c.

Definition latin_isspace (c : Z) : bool :=
  between 0x09 0x0D c || between 0x1C 0x20 c || (c =? 0x85) || (c =? 0xA0)
  || (c =? 0x1680) || between 0x2000 0x200A c || between 0x2028 0x2029 c
  || (c =? 0x202F) || (c =? 0x205F) || (c =? 0x3000).

Definition latin_isdecimal (c : Z) : bool := between 0x30 0x39 c.

#[export] Instance Latin : tables := {
  lower := latin_lower;
  tolower := latin_tolower;
  fixes := latin_fixes;
  isalnum := latin_isalnum;
  isspace := latin_isspace;
  isdecimal := latin_isdecimal;
  lower_nil := eq_refl
}.

End Unicode.

(* ================================================================== *)
(** * The fragment of [re] the patterns use *)
(* ================================================================== *)

Module Re.

Import Py Unicode.

Inductive item : Type :=
| One (c : Z)
| Range (lo hi : Z).

(** Patterns after [re.compile(..., re.IGNORECASE)]. *)
Inductive regex : Type :=
| Empty                      (** matches the empty string *)
| Never                      (** matches nothing *)
| Lit (c : Z)                (** a literal character *)
| In_ (items : list item)    (** [[...]] *)
| Space                      (** [\s] *)
| Digit                      (** [\d] *)
| Bnd                        (** [\b] *)
| Cat (a b : regex)
| Alt (a b : regex)
| Star (a : regex).

Definition Opt (r : regex) : regex := Alt r Empty.

Fixpoint rep (r : regex) (n : nat) : regex :=
  match n with
  | O => Empty
  | S n' => Cat r (rep r n')
  end.

(** ** Parsing a pattern string *)

Definition chr (a : ascii) : Z := Z.of_nat (nat_of_ascii a).

Definition is_digit (c : Z) : bool := between (chr "0") (chr "9") c.

Definition is_ascii_alnum (c : Z) : bool :=
  is_digit c || between (chr "a") (chr "z") c || between (chr "A") (chr "Z") c.

Fixpoint read_nat (acc : nat) (s : str) : nat * str :=
  match s with
  | c :: s' =>
      if is_digit c then read_nat (10 * acc + Z.to_nat (c - chr "0")) s'
      else (acc, s)
  | [] => (acc, s)
  end.

(** A quantifier after an atom: [?], [*], [{m}], [{m,n}]. *)
Definition quant (r : regex) (s : str) : option (regex * str) :=
  match s with
  | c :: s1 =>
      if c =? chr "?" then Some (Opt r, s1)
      else if c =? chr "*" then Some (Star r, s1)
      else if c =? chr "{" then
        let '(lo, s2) := read_nat 0 s1 in
        match s2 with
        | d :: s3 =>
            if d =? chr "}" then Some (rep r lo, s3)
            else if d =? chr "," then
              let '(hi, s4) := read_nat 0 s3 in
              match s4 with
              | e :: s5 =>
                  if e =? chr "}"
                  then Some (Cat (rep r lo) (rep (Opt r) (hi - lo)), s5)
                  else None
              | [] => None
              end
            else None
        | [] => None
        end
      else Some (r, s)
  | [] => Some (r, s)
  end.

(** The inside of [[...]], up to the closing bracket. *)
Fixpoint parse_set (fuel : nat) (acc : list item) (s : str)
  : option (list item * str) :=
  match fuel, s with
  | S f, c :: s1 =>
      if c =? chr "]" then Some (rev acc, s1)
      else
        let '(c, s1) :=
          if c =? chr "\"
          then match s1 with e :: s2 => (e, s2) | [] => (c, s1) end
          else (c, s1) in
        match s1 with
        | d :: hi :: s3 =>
            if (d =? chr "-") && negb (hi =? chr "]")
            then parse_set f (Range c hi :: acc) s3
            else parse_set f (One c :: acc) s1
        | _ => parse_set f (One c :: acc) s1
        end
  | _, _ => None
  end.

Fixpoint parse_alt (fuel : nat) (s : str) : option (regex * str) :=
  match fuel with
  | O => None
  | S f =>
      match parse_seq f s with
      | Some (r, c :: s1) =>
          if c =? chr "|" then
            match parse_alt f s1 with
            | Some (r2, s2) => Some (Alt r r2, s2)
            | None => None
            end
          else Some (r, c :: s1)
      | other => other
      end
  end
with parse_seq (fuel : nat) (s : str) : option (regex * str) :=
  match fuel with
  | O => None
  | S f =>
      match s with
      | [] => Some (Empty, [])
      | c :: _ =>
          if (c =? chr "|") || (c =? chr ")") then Some (Empty, s)
          else
            match parse_atom f s with
            | Some (r, s1) =>
                match quant r s1 with
                | Some (rq, s2) =>
                    match parse_seq f s2 with
                    | Some (r2, s3) => Some (Cat rq r2, s3)
                    | None => None
                    end
                | None => None
                end
            | None => None
            end
      end
  end
with parse_atom (fuel : nat) (s : str) : option (regex * str) :=
  match fuel with
  | O => None
  | S f =>
      match s with
      | [] => None
      | c :: s1 =>
          if c =? chr "(" then
            match s1 with
            | q :: col :: s2 =>
                if (q =? chr "?") && (col =? chr ":") then
                  match parse_alt f s2 with
                  | Some (r, cl :: s3) =>
                      if cl =? chr ")" then Some (r, s3) else None
                  | _ => None
                  end
                else None
            | _ => None
            end
          else if c =? chr "[" then
            match parse_set (length s1) [] s1 with
            | Some (items, s2) => Some (In_ items, s2)
            | None => None
            end
          else if c =? chr "\" then
            match s1 with
            | e :: s2 =>
                if e =? chr "b" then Some (Bnd, s2)
                else if e =? chr "s" then Some (Space, s2)
                else if e =? chr "d" then Some (Digit, s2)
                else if is_ascii_alnum e then None
                else Some (Lit e, s2)
            | [] => None
            end
          else Some (Lit c, s1)
      end
  end.

(** [re.compile(pattern, re.IGNORECASE)]; the patterns of the program are
    constants, and each of them parses (lemma [patterns_compile]). *)
Definition compile (pattern : string) : regex :=
  let s := u pattern in
  match parse_alt (4 * length s + 4) s with
  | Some (r, []) => r
  | _ => Never
  end.

(** What the matcher does next: called with the character before the
    rest of the input and that rest. *)
Definition cont : Type := option Z -> str -> bool.

(** Two continuations that agree on the inputs no longer than [s]. *)
Definition agree (s : str) (k k' : cont) : Prop :=
  forall p s', (length s' <= length s)%nat -> k p s' = k' p s'.

(** Whether [compile] accepted its pattern. *)
Fixpoint parsed (r : regex) : bool :=
  match r with
  | Never => false
  | Cat a b | Alt a b => parsed a && parsed b
  | Star a => parsed a
  | _ => true
  end.

(** The shape [compile] gives to a run of atoms, and to a word. *)
Definition seq_ (rs : list regex) : regex := fold_right Cat Empty rs.
Definition word (w : string) : regex := seq_ (map Lit (u w)).

(** ** Matching *)

Section Matching.
Context {U : tables}.

(** [\w]: alphanumeric or underscore. *)
Definition isword (c : Z) : bool := isalnum c || (c =? chr "_").

(** A literal against a text character under [IGNORECASE]: equal, equal
    after folding, or one of the folded literal's case equivalents. *)
Definition lit_match (c t : Z) : bool :=
  (t =? c) || (tolower t =? tolower c)
  || existsb (Z.eqb (tolower t)) (fixes (tolower c)).

(** An item of a set.  A range is tested on the character and on its
    lower case; the bounds themselves are not folded, which is exact for a
    range of uncased characters such as [[2-7]], the only range in the
    patterns of the program. *)
Definition item_match (i : item) (t : Z) : bool :=
  match i with
  | One c => lit_match c t
  | Range lo hi => between lo hi t || between lo hi (tolower t)
  end.

(** [\b] between the character before the position and the one after. *)
Definition boundary (prev : option Z) (s : str) : bool :=
  xorb (match prev with Some c => isword c | None => false end)
       (match s with c :: _ => isword c | [] => false end).

Definition one (p : Z -> bool) (k : option Z -> str -> bool)
           (prev : option Z) (s : str) : bool :=
  match s with
  | t :: s' => if p t then k (Some t) s' else false
  | [] => false
  end.

(** [a*]: stop here, or match [a] once, consuming input, and go on.  The
    fuel bounds the number of iterations; [length s] is enough (lemma
    [star_fuel]). *)
Fixpoint star (ma : (option Z -> str -> bool) -> option Z -> str -> bool)
         (k : option Z -> str -> bool) (n : nat)
         (prev : option Z) (s : str) {struct n} : bool :=
  if k prev s then true
  else match n with
       | O => false
       | S n' =>
           ma (fun prev' s' =>
                 if (length s' <? length s)%nat
                 then star ma k n' prev' s' else false)
              prev s
       end.

(** Backtracking matcher in continuation-passing style: [m r k prev s]
    holds when [r] matches a prefix of [s] (the character before [s] being
    [prev]) and [k] accepts what follows. *)
Fixpoint m (r : regex) (k : option Z -> str -> bool)
         (prev : option Z) (s : str) {struct r} : bool :=
  match r with
  | Empty => k prev s
  | Never => false
  | Lit c => one (lit_match c) k prev s
  | In_ items => one (fun t => existsb (fun i => item_match i t) items)
                     k prev s
  | Space => one isspace k prev s
  | Digit => one isdecimal k prev s
  | Bnd => if boundary prev s then k prev s else false
  | Cat a b => m a (m b k) prev s
  | Alt a b => if m a k prev s then true else m b k prev s
  | Star a => star (m a) k (length s) prev s
  end.

(** The leftmost position from which [r] matches, if there is one. *)
Fixpoint search_from (r : regex) (prev : option Z) (s : str) : bool :=
  if m r (fun _ _ => true) prev s then true
  else match s with
       | c :: s' => search_from r (Some c) s'
       | [] => false
       end.

(** [bool(pattern.search(text))] *)
Definition search (r : regex) (text : str) : bool :=
  search_from r None text.
End Matching.

End Re.

(* ================================================================== *)
(** * The input data *)
(* ================================================================== *)

(** The JSON document [{"thread": {"subject": ..., "messages": [...]}}] as
    [json.load] returns it.  Every key may be missing or bound to [None].
    The message dictionaries are objects of the caller: they live in a heap
    and the thread's list holds references to them, so that what
    [normalize_thread] writes is visible to whoever holds the data. *)
Module Json.

Import Py.

Record Message : Type := {
  timestamp : field str;
  from : field str;
  to : field (list str);
  body : field str
}.

Definition loc := nat.

(** Every location holds a dictionary; the unused ones hold [{}]. *)
Definition heap := loc -> Message.

Definition upd (h : heap) (l : loc) (msg : Message) : heap :=
  fun l' => if Nat.eqb l' l then msg else h l'.

Record Thread : Type := {
  subject : field str;
  messages : field (list loc)
}.

Record Data : Type := {
  thread : field Thread
}.

(** [{}] *)
Definition empty_message : Message :=
  {| timestamp := Absent; from := Absent; to := Absent; body := Absent |}.
Definition empty_thread : Thread :=
  {| subject := Absent; messages := Absent |}.
Definition empty_data : Data := {| thread := Absent |}.

Definition present {A} (f : field A) : bool :=
  match f with
  | Absent => false
  | _ => true
  end.

(** Truth value of a dictionary: it has a key.  Keys outside the data
    model are not represented.  A dictionary that has only such keys is true
    in Python and false here, and nothing depends on it: the program tests
    [x or {}] and then reads keys of the data model, which are missing
    either way, and it tests [m and m.get("body")], which is false either
    way. *)
Definition truthy_message (msg : Message) : bool :=
  present (timestamp msg) || present (from msg) || present (to msg)
  || present (body msg).
Definition truthy_thread (t : Thread) : bool :=
  present (subject t) || present (messages t).
Definition truthy_data (d : Data) : bool := present (thread d).

End Json.

(* ================================================================== *)
(** * [rules.py] *)
(* ================================================================== *)

Module Rules.

Import Py Unicode Re Json.

(** ** Precompiled, bilingual patterns *)

(** Scheduling *)
Definition RE_TIME_PROPOSE : regex := compile
  ("(?:(?:meet(?:ing)?|schedule|call|zoom|teams|hangout|cuộc\s*họp|đặt\s*lịch|họp)\b)"
   ++ "|(?:\b(?:mon|tue|wed|thu|fri|sat|sun)\b)"
   ++ "|(?:\bth(?:ứ)?\s*[2-7]\b)"
   ++ "|(?:\b\d{1,2}[:h\.]\d{2}\b)")%string.

Definition RE_TIME_CONFIRM : regex := compile
  ("\b(?:confirm(?:ed)?|see\s*you|approved|ok(?:ay)?|sounds\s*good|"
   ++ "đã\s*xác\s*nhận|xác\s*nhận|đồng\s*ý|hẹn\s*gặp)\b")%string.

Definition RE_TIME_RESCHED : regex := compile
  ("\b(?:re-?schedule|resched|move|postpone|delay|push|"
   ++ "đổi\s*lịch|hoãn|lùi|chuyển)\b")%string.

(** Attachments / documents *)
Definition RE_ATTACH_ATTACHED : regex := compile
  "\b(?:attached?|attachment|see\s*attachment|pfa|enclosed|đính\s*kèm|tệp\s*đính\s*kèm)\b".

Definition RE_ATTACH_EXPECT : regex := compile
  ("(?:(?:send|resend|provide|share|forward)\s*(?:me|us|it)?\s*(?:the\s*)?"
   ++ "(?:file|doc(?:ument)?s?|attachment|link)\b)"
   ++ "|(?:vui\s*lòng|xin)\s*(?:gửi|trả\s*lời|chia\s*se)\s*(?:file|tài\s*liệu|đính\s*kèm)\b"
   ++ "|(?:sẽ\s*gửi|gửi\s*sau|chờ\s*file)")%string.

(** Urgency *)
Definition RE_URGENT : regex := compile
  ("\b(?:urgent|asap|eod|by\s*eod|by\s*tomorrow|today|"
   ++ "khẩn|gấp|ngay|trong\s*ngày|cuối\s*ngày|sớm\s*nhất)\b")%string.

Definition RE_LOW : regex := compile
  "\b(?:no\s*rush|whenever|when\s*free|lúc\s*rảnh|không\s*vội)\b".

(** Tone *)
Definition RE_TONE_POS : regex := compile
  ("\b(?:thanks|thank\s*you|appreciate|much\s*appreciated|cheers|"
   ++ "cảm\s*ơn|trân\s*trọng|tuyệt\s*vời|rất\s*tốt)\b")%string.

Definition RE_TONE_FRUS : regex := compile
  ("\b(?:sorry|apolog(?:y|ise|ize)|frustrat(?:ed|ing)|not\s*happy|angry|"
   ++ "delay(?:ed)?|blocked|issue|problem|"
   ++ "xin\s*lỗi|không\s*hài\s*lòng|bực|chậm|trục\s*trặc|vấn\s*đề)\b")%string.

(** State cues *)
Definition RE_FOLLOWUP : regex := compile
  "\b(?:follow-?up|gentle\s*reminder|ping|nhắc)\b".

Definition RE_RESOLVED : regex := compile
  "\b(?:resolved|fixed|done|completed|closed|xong|hoàn\s*tất|đã\s*xử\s*lý)\b".

(** Request type supplements *)
Definition RE_REVIEW : regex := compile
  "\b(?:review|approve|approval|duyệt|kiểm\s*tra|xác\s*nhận)\b".
Definition RE_EDIT : regex := compile
  "\b(?:edit|revise|revision|chỉnh\s*sửa|sửa)\b".
Definition RE_PROVIDE_DOCS : regex := compile
  "\b(?:doc(?:ument)?s?|file|tài\s*liệu)\b".
Definition RE_MEET : regex := compile
  "\b(?:meet(?:ing)?|schedule|call|họp|lịch|zoom)\b".

(** ** The label *)

Inductive RequestType :=
  SCHEDULE_MEET | PROVIDE_DOCS | REVIEW_APPROVE | EDIT_REVISE | INFO_ONLY.
Inductive Urgency := URGENT_24H | STD_48H | LOW_120H.
Inductive ThreadState := NEW | FOLLOW_UP | RESOLVED.
Inductive Scheduling :=
  NO_MEETING | PROPOSED_TIME | RESCHEDULE | CONFIRMED_TIME.
Inductive Attachment := ATTACHED | EXPECTING_ATTACHMENT | NONE_MENTIONED.
Inductive Tone := POSITIVE | FRUSTRATED | NEUTRAL.

Record Label : Type := {
  request_type : RequestType;
  urgency : Urgency;
  thread_state : ThreadState;
  scheduling : Scheduling;
  attachments : list Attachment;
  tone : Tone
}.

Section Classifier.
Context {U : tables}.

(** ** Helpers *)

(** [s.lower() if isinstance(s, str) else ""] *)
Definition _lower (s : option str) : str :=
  match s with
  | Some x => lower x
  | None => []
  end.

(** [m.get("body")] as a condition *)
Definition has_body (msg : Message) : bool :=
  truthy_opt truthy_seq (get_none (body msg)).

Definition _last_texts (messages : list Message) (k : nat) : list str :=
  let bodies :=
    map (fun msg => _lower (get (body msg) []))
        (filter (fun msg => truthy_message msg && has_body msg) messages) in
  if truthy_seq bodies then last_k k bodies else [].

(** ** The three text views of [classify_labels] *)

Definition bodies (messages : list Message) : list str :=
  map (fun msg => _lower (get (body msg) [])) (filter has_body messages).

Definition all_text (subject : str) (messages : list Message) : str :=
  join (u " ") (bodies messages ++ [_lower (Some subject)]).

Definition last (messages : list Message) : list str :=
  _last_texts messages 3.

Definition last1 (messages : list Message) : str :=
  let last := last messages in
  if truthy_seq last then last_or last [] else [].

Definition last_any (messages : list Message) : str :=
  join (u " ") (last messages).

(** ** Core classification *)

Definition classify_labels (subject : str) (messages : list Message)
  : Label :=
  let all_text := all_text subject messages in
  let last1 := last1 messages in
  let last_any := last_any messages in
  (* Scheduling outcome (Confirm > Reschedule > Propose > None) *)
  let scheduling :=
    if search RE_TIME_CONFIRM last_any then CONFIRMED_TIME
    else if search RE_TIME_RESCHED last_any then RESCHEDULE
    else if search RE_TIME_PROPOSE all_text then PROPOSED_TIME
    else NO_MEETING in
  (* Request type (meet > provide docs > review > edit > info) *)
  let request_type :=
    if search RE_MEET all_text
       || match scheduling with
          | PROPOSED_TIME | CONFIRMED_TIME | RESCHEDULE => true
          | NO_MEETING => false
          end
    then SCHEDULE_MEET
    else if search RE_ATTACH_EXPECT all_text
            && negb (search RE_ATTACH_ATTACHED all_text)
    then PROVIDE_DOCS
    else if search RE_REVIEW all_text then REVIEW_APPROVE
    else if search RE_EDIT all_text then EDIT_REVISE
    else if search RE_PROVIDE_DOCS all_text then PROVIDE_DOCS
    else INFO_ONLY in
  (* Attachments (multi-label) *)
  let attachments := [] in
  let attachments :=
    if search RE_ATTACH_ATTACHED all_text
    then attachments ++ [ATTACHED] else attachments in
  let attachments :=
    if search RE_ATTACH_EXPECT all_text
    then attachments ++ [EXPECTING_ATTACHMENT] else attachments in
  let attachments :=
    if negb (truthy_seq attachments) then [NONE_MENTIONED]
    else attachments in
  (* Urgency *)
  let urgency :=
    if search RE_URGENT all_text then URGENT_24H
    else if search RE_LOW all_text then LOW_120H
    else STD_48H in
  (* Tone (prefer last message) *)
  let tone :=
    if search RE_TONE_FRUS last1 && negb (search RE_TONE_POS last1)
    then FRUSTRATED
    else if search RE_TONE_POS last1 && negb (search RE_TONE_FRUS last1)
    then POSITIVE
    else
      (* fall back to any tone seen across the tail *)
      if search RE_TONE_POS last_any
         && negb (search RE_TONE_FRUS last_any)
      then POSITIVE
      else if search RE_TONE_FRUS last_any
              && negb (search RE_TONE_POS last_any)
      then FRUSTRATED
      else NEUTRAL in
  (* Thread state *)
  let n := length messages in
  let thread_state :=
    if search RE_RESOLVED last_any then RESOLVED
    else if search RE_FOLLOWUP all_text || (1 <? n)%nat then FOLLOW_UP
    else NEW in
  {| request_type := request_type;
     urgency := urgency;
     thread_state := thread_state;
     scheduling := scheduling;
     attachments := attachments;
     tone := tone |}.
End Classifier.

End Rules.

(* ================================================================== *)
(** * [classify_cli.py]: core helpers *)
(* ================================================================== *)

Module Cli.

Import Py Unicode Json Rules.

Record Classification : Type := {
  thread_id : str;
  label : Label
}.

(** The four [msg.setdefault(...)] calls of the loop body. *)
Definition set_defaults (msg : Message) : Message :=
  {| timestamp := setdefault (timestamp msg) [];
     from := setdefault (from msg) [];
     to := setdefault (to msg) [];
     body := setdefault (body msg) [] |}.

(** Returns [(subject, messages)] and the heap the loop leaves behind. *)
Definition normalize_thread (thread : option Thread) (h : heap)
  : heap * (str * list loc) :=
  let subject :=
    or_ truthy_seq (get (subject (or_ truthy_thread thread empty_thread)) [])
        [] in
  let messages :=
    or_ truthy_seq (get (messages (or_ truthy_thread thread empty_thread)) [])
        [] in
  let h' :=
    fold_left (fun h msg => upd h msg (set_defaults (h msg))) messages h in
  (h', (subject, messages)).

(** The sort key [m.get("timestamp", "") or ""]. *)
Definition sort_key (msg : Message) : str :=
  or_ truthy_seq (get (timestamp msg) []) [].

Definition sort_messages (messages : list loc) (h : heap) : list loc :=
  sorted (fun l => sort_key (h l)) messages.

Definition compute_thread_id (subject : str) (messages_sorted : list loc)
           (h : heap) : result str :=
  bind (match messages_sorted with
        | [] => Ok (Some [])
        | l :: _ => getitem (timestamp (h l))
        end) (fun first_ts =>
  bind (match messages_sorted with
        | [] => Ok (Some [])
        | _ :: _ => getitem (timestamp (h (List.last messages_sorted O)))
        end) (fun last_ts =>
  bind (add_str (Some subject) first_ts) (fun s =>
  bind (add_str (Some s) last_ts) (fun s =>
  bind (encode_utf8 s) (fun basis =>
  Ok (SHA1.hexdigest (SHA1.sha1 basis))))))).

Section Classify.
Context {U : tables}.

Definition classify_thread (data : option Data) (h : heap)
  : heap * result Classification :=
  let thread :=
    or_ truthy_thread
        (get (thread (or_ truthy_data data empty_data)) empty_thread)
        empty_thread in
  let '(h, (subject, messages)) := normalize_thread (Some thread) h in
  let messages_sorted := sort_messages messages h in
  (h,
   bind (compute_thread_id subject messages_sorted h) (fun thread_id =>
   let label := classify_labels subject (map h messages_sorted) in
   Ok {| thread_id := thread_id; label := label |})).
End Classify.

End Cli.

(* ================================================================== *)
(** * The specification's vocabulary *)
(* ================================================================== *)

(** Definitions that follow the words of the specification; the theorems
    below relate them to what the code computes. *)
Module Spec.

Import Py Unicode Re Json Rules.

Section Views.
Context {U : tables}.

(** "every non-empty message body", case-folded, in message order *)
Definition nonempty_bodies (messages : list Message) : list str :=
  flat_map (fun msg => match body msg with
                       | Val (c :: b) => [lower (c :: b)]
                       | _ => []
                       end) messages.

(** "concatenation of every non-empty message body plus the subject,
    space-joined" *)
Definition all_text (subject : str) (messages : list Message) : str :=
  join [32] (nonempty_bodies messages ++ [lower subject]).

(** "the up-to-3 most recent non-empty message bodies, space-joined; if
    fewer than 3 non-empty bodies exist, use all available" *)
Definition tail (messages : list Message) : str :=
  join [32] (rev (firstn 3 (rev (nonempty_bodies messages)))).

(** "the single most recent non-empty message body, or empty string if
    none" *)
Definition last (messages : list Message) : str :=
  match rev (nonempty_bodies messages) with
  | b :: _ => b
  | [] => []
  end.

(** "Exclusive match": a view is conclusive when it matches exactly one
    of the two tone patterns. *)
Definition exclusive_tone (view : str) : option Tone :=
  match search RE_TONE_FRUS view, search RE_TONE_POS view with
  | true, false => Some FRUSTRATED
  | false, true => Some POSITIVE
  | _, _ => None
  end.
End Views.

(** A message whose fields are all default-filled. *)
Definition filled {A} (f : field A) : bool :=
  match f with
  | Val _ => true
  | _ => false
  end.

(** The text of a timestamp field, empty when there is none. *)
Definition timestamp_text (msg : Message) : str :=
  match timestamp msg with
  | Val t => t
  | _ => []
  end.

(** "the timestamp of the first message in sorted order (empty string if no
    messages)" and the same for the last one *)
Definition first_timestamp (messages_sorted : list loc) (h : heap) : str :=
  match messages_sorted with
  | [] => []
  | l :: _ => timestamp_text (h l)
  end.

Definition last_timestamp (messages_sorted : list loc) (h : heap) : str :=
  match rev messages_sorted with
  | [] => []
  | l :: _ => timestamp_text (h l)
  end.

(** "the cryptographic digest (160-bit, hex-encoded lowercase)" of the
    UTF-8 bytes of a string *)
Definition digest (s : str) : result str :=
  fmap (fun bytes => SHA1.hexdigest (SHA1.sha1 bytes)) (encode_utf8 s).

Definition is_lower_hex (c : Z) : bool :=
  ((48 <=? c) && (c <=? 57)) || ((97 <=? c) && (c <=? 102)).

(** The messages of the thread a document holds. *)
Definition thread_messages (data : option Data) : list loc :=
  match data with
  | Some {| thread := Val {| messages := Val ms |} |} => ms
  | _ => []
  end.

(** The subject of the thread a document holds, empty when there is
    none. *)
Definition thread_subject (data : option Data) : str :=
  match data with
  | Some {| thread := Val {| subject := Val s |} |} => s
  | _ => []
  end.

(** A string [str.encode("utf-8")] accepts. *)
Definition encodable (s : str) : bool := forallb is_scalar s.

Definition not_null {A} (f : field A) : bool :=
  match f with
  | Null => false
  | _ => true
  end.

(** One key of a dictionary before and after a call that may only add
    missing keys: a missing key appears with the default, and a key that is
    there keeps what it is bound to, a value or [None]. *)
Definition only_filled {A} (dflt : A) (before after : field A) : Prop :=
  match before with
  | Absent => after = Val dflt
  | Val a => after = Val a
  | Null => after = Null
  end.

(** The label of a thread nothing is known about. *)
Definition default_label : Label :=
  {| request_type := INFO_ONLY;
     urgency := STD_48H;
     thread_state := NEW;
     scheduling := NO_MEETING;
     attachments := [NONE_MENTIONED];
     tone := NEUTRAL |}.

End Spec.

(* ================================================================== *)
(** * Sample threads *)
(* ================================================================== *)

Module Examples.

Import Py Json.

(** A heap whose first locations hold the given dictionaries. *)
Definition heap_of (msgs : list Message) : heap :=
  fun l => nth l msgs empty_message.

(** [{"thread": {"messages": [<0>, ..., <n-1>]}}] with an optional subject. *)
Definition doc (subject : field str) (n : nat) : option Data :=
  Some {| thread := Val {| subject := subject;
                           messages := Val (seq 0 n) |} |}.

(** A message as a mail client writes it. *)
Definition mail (ts text : string) : Message :=
  {| timestamp := Val (u ts); from := Val (u "a@example.org");
     to := Val [u "b@example.org"]; body := Val (u text) |}.

(** [{"timestamp": null}] *)
Definition null_timestamp : Message :=
  {| timestamp := Null; from := Absent; to := Absent; body := Absent |}.

(** Scenario 3 of the specification, the later message listed first. *)
Definition move_then_confirm : list Message :=
  [mail "2024-05-02T09:00" "Confirmed, see you then";
   mail "2024-05-01T09:00" "Let's move the call to next week"].

(** Three messages, two of them sent at the same time. *)
Definition same_time : list Message :=
  [mail "2024-05-02" "second day";
   mail "2024-05-01" "first day, first";
   mail "2024-05-01" "first day, second"].

(** The label [classify_thread] gives to a subject and a list of mails,
    with the character tables [Latin]. *)
Definition label_of (subject : string) (msgs : list Message)
  : option Rules.Label :=
  match snd (Cli.classify_thread (U := Unicode.Latin)
               (doc (Val (u subject)) (length msgs)) (heap_of msgs)) with
  | Ok c => Some (Cli.label c)
  | Raise _ => None
  end.

End Examples.

(* ================================================================== *)
(** * [classify_cli.py]: the paste loop of the interactive menu *)
(* ================================================================== *)

Module Interactive.

Import Py Unicode.

Section Paste.
Context {U : tables}.

(** [line.strip() == ""]: the line holds white space only. *)
Definition blank (line : str) : bool := forallb isspace line.

(** Option 2 of [interactive_cli]: [input()] is called until it raises
    [EOFError] or returns a blank line, and the lines read before that are
    appended to [lines].  The standard input is the list of the lines still
    to come; the result is the list of lines and the input left over. *)
Fixpoint read_paste (stdin : list str) (lines : list str)
  : list str * list str :=
  match stdin with
  | [] => (lines, [])
  | line :: rest =>
      if blank line then (lines, rest)
      else read_paste rest (lines ++ [line])
  end.

(** ["\n".join(lines)], the text given to [json.loads]. *)
Definition pasted (stdin : list str) : str :=
  join [10] (fst (read_paste stdin [])).
End Paste.

End Interactive.

(* ================================================================== *)
(** * Vocabulary of the further properties *)
(* ================================================================== *)

Module Props.

Import Py Json.

Definition is_null {A} (f : field A) : bool :=
  match f with
  | Null => true
  | _ => false
  end.

Definition is_absent {A} (f : field A) : bool :=
  match f with
  | Absent => true
  | _ => false
  end.

(** The timestamp of the first or of the last message of a list satisfies
    [p]; false on the empty list. *)
Definition at_an_end (p : field str -> bool) (ms : list loc) (h : heap)
  : bool :=
  match ms with
  | [] => false
  | l :: _ => p (timestamp (h l)) || p (timestamp (h (List.last ms O)))
  end.

(** The string [compute_thread_id] digests. *)
Definition basis (subject : str) (ms : list loc) (h : heap) : str :=
  subject ++ Spec.first_timestamp ms h ++ Spec.last_timestamp ms h.

(** The heap the loop of [normalize_thread] leaves. *)
Definition normalized (messages : list loc) (h : heap) : heap :=
  fold_left (fun h msg => upd h msg (Cli.set_defaults (h msg))) messages h.

(** What [classify_thread] does after [normalize_thread], on the heap
    that one leaves. *)
Definition classify_on {U : Unicode.tables} (subject : str)
           (messages : list loc) (h : heap) : result Cli.Classification :=
  let messages_sorted := Cli.sort_messages messages h in
  bind (Cli.compute_thread_id subject messages_sorted h) (fun tid =>
  Ok {| Cli.thread_id := tid;
        Cli.label := Rules.classify_labels subject
                       (map h messages_sorted) |}).

(** A message that has a body and nothing else. *)
Definition bare (text : string) : Message :=
  {| timestamp := Absent; from := Absent; to := Absent;
     body := Val (u text) |}.

(** A message that has a timestamp and nothing else. *)
Definition stamp (ts : string) : Message :=
  {| timestamp := Val (u ts); from := Absent; to := Absent;
     body := Absent |}.

End Props.

Import Py Unicode Re Json Rules Cli.

(* ================================================================== *)
(** * String order and [sorted] *)
(* ================================================================== *)

Section StrOrder.

Lemma str_lt_irrefl (a : str) : str_lt a a = false.
Proof.
  induction a as [|x a IH]; simpl; [reflexivity|].
  rewrite Z.ltb_irrefl, Z.eqb_refl. exact IH.
Qed.

Lemma str_lt_nil_r (a : str) : str_lt a [] = false.
Proof. destruct a; reflexivity. Qed.

Lemma str_lt_cons (x y : Z) (a b : str) :
  str_lt (x :: a) (y :: b) = true <->
  x < y \/ (x = y /\ str_lt a b = true).
Proof.
  simpl. rewrite orb_true_iff, andb_true_iff, Z.ltb_lt, Z.eqb_eq.
  tauto.
Qed.

Lemma str_lt_trans (a b c : str) :
  str_lt a b = true -> str_lt b c = true -> str_lt a c = true.
Proof.
  revert b c; induction a as [|x a IH]; intros [|y b] [|z c];
    try discriminate; try reflexivity.
  rewrite !str_lt_cons.
  intros [Hxy | [-> Hab]] [Hyz | [-> Hbc]]; try (left; lia).
  right; split; [reflexivity | eauto].
Qed.

Lemma str_lt_connex (a b : str) :
  str_lt a b = false -> str_lt b a = false -> a = b.
Proof.
  revert b; induction a as [|x a IH]; intros [|y b]; try discriminate;
    [reflexivity|].
  simpl. rewrite !orb_false_iff, !andb_false_iff.
  rewrite !Z.ltb_ge, !Z.eqb_neq.
  intros [H1 H2] [H3 H4].
  assert (x = y) by lia; subst y.
  destruct H2 as [H2|H2]; [congruence|].
  destruct H4 as [H4|H4]; [congruence|].
  f_equal; auto.
Qed.

Lemma str_lt_asym (a b : str) : str_lt a b = true -> str_lt b a = false.
Proof.
  intros H. destruct (str_lt b a) eqn:E; [|reflexivity].
  rewrite <- (str_lt_irrefl a). symmetry. eapply str_lt_trans; eauto.
Qed.

Lemma str_le_trans (a b c : str) : str_le a b -> str_le b c -> str_le a c.
Proof.
  unfold str_le; intros Hab Hbc.
  destruct (str_lt c a) eqn:Hca; [|reflexivity].
  destruct (str_lt a b) eqn:E.
  - rewrite <- Hbc. symmetry. eapply str_lt_trans; eauto.
  - assert (a = b) by (apply str_lt_connex; assumption). subst b.
    congruence.
Qed.

Lemma str_eqb_eq (a b : str) : str_eqb a b = true <-> a = b.
Proof.
  revert b; induction a as [|x a IH]; intros [|y b]; simpl;
    try (split; [discriminate | congruence]); [tauto|].
  rewrite andb_true_iff, Z.eqb_eq, IH. split.
  - intros [-> ->]; reflexivity.
  - intros E; injection E; auto.
Qed.

End StrOrder.

Section SortedFacts.
Variable A : Type.
Variable key : A -> str.

Lemma insert_perm (x : A) (l : list A) :
  Permutation (x :: l) (insert key x l).
Proof.
  induction l as [|y l IH]; simpl; [reflexivity|].
  destruct (str_lt (key y) (key x)); [|reflexivity].
  rewrite perm_swap. constructor. exact IH.
Qed.

Lemma sorted_perm (l : list A) : Permutation l (sorted key l).
Proof.
  induction l as [|x l IH]; simpl; [constructor|].
  rewrite <- insert_perm. constructor. exact IH.
Qed.

Lemma insert_sorted (x : A) (l : list A) :
  StronglySorted (key_le key) l -> StronglySorted (key_le key) (insert key x l).
Proof.
  induction 1 as [|y l Hl IH Hy]; simpl.
  - repeat constructor.
  - destruct (str_lt (key y) (key x)) eqn:E.
    + constructor; [exact IH|].
      rewrite <- insert_perm. constructor; [|exact Hy].
      apply str_lt_asym; exact E.
    + constructor; [constructor; assumption|].
      constructor; [exact E|].
      eapply Forall_impl; [|exact Hy].
      intros z Hz. eapply str_le_trans; [exact E | exact Hz].
Qed.

Lemma sorted_sorted (l : list A) : StronglySorted (key_le key) (sorted key l).
Proof.
  induction l as [|x l IH]; simpl; [constructor|].
  apply insert_sorted; exact IH.
Qed.

(** Stability: the elements that carry a given key come out in the order
    they went in. *)
Lemma insert_filter (k : str) (x : A) (l : list A) :
  filter (fun a => str_eqb (key a) k) (insert key x l)
  = filter (fun a => str_eqb (key a) k) (x :: l).
Proof.
  induction l as [|y l IH]; simpl; [reflexivity|].
  destruct (str_lt (key y) (key x)) eqn:E; [|reflexivity].
  simpl in *. rewrite IH.
  destruct (str_eqb (key x) k) eqn:Ex; [|reflexivity].
  destruct (str_eqb (key y) k) eqn:Ey; [|reflexivity].
  apply str_eqb_eq in Ex, Ey.
  rewrite Ex, Ey, str_lt_irrefl in E. discriminate.
Qed.

Lemma sorted_filter (k : str) (l : list A) :
  filter (fun a => str_eqb (key a) k) (sorted key l)
  = filter (fun a => str_eqb (key a) k) l.
Proof.
  induction l as [|x l IH]; simpl; [reflexivity|].
  rewrite insert_filter. simpl. rewrite IH. reflexivity.
Qed.

(** The result depends on the keys only. *)
Lemma sorted_ext (key' : A -> str) (l : list A) :
  (forall a, key' a = key a) -> sorted key' l = sorted key l.
Proof.
  intros E. induction l as [|x l IH]; simpl; [reflexivity|].
  rewrite IH. generalize (sorted key l) as s.
  induction s as [|y s IHs]; simpl; [reflexivity|].
  rewrite !E, IHs. reflexivity.
Qed.
End SortedFacts.

(* ================================================================== *)
(** * The matcher never runs out of fuel *)
(* ================================================================== *)

Section EngineFacts.
Context {U : tables}.

Lemma one_ext (p : Z -> bool) (k k' : cont) (prev : option Z) (s : str) :
  agree s k k' -> one p k prev s = one p k' prev s.
Proof.
  intros H. destruct s as [|t s]; simpl; [reflexivity|].
  rewrite (H (Some t) s) by (simpl; lia). reflexivity.
Qed.

Lemma star_ext (ma : cont -> cont) :
  (forall k k' prev s, agree s k k' -> ma k prev s = ma k' prev s) ->
  forall n k k' prev s,
    agree s k k' -> star ma k n prev s = star ma k' n prev s.
Proof.
  intros Hma. induction n as [|n IH]; intros k k' prev s H; simpl;
    rewrite (H prev s) by lia; destruct (k' prev s); try reflexivity.
  apply Hma. intros p s' Hle.
  destruct (length s' <? length s)%nat eqn:E; [|reflexivity].
  apply IH. intros q t Ht. apply H. lia.
Qed.

(** The matcher calls its continuation on suffixes of the input only. *)
Lemma m_ext (r : regex) :
  forall k k' prev s, agree s k k' -> m r k prev s = m r k' prev s.
Proof.
  induction r as [| | c | items | | | | a IHa b IHb | a IHa b IHb | a IHa];
    intros k k' prev s H; cbn [m];
    try (apply one_ext; exact H); try reflexivity.
  - apply H. lia.
  - rewrite (H prev s) by lia. reflexivity.
  - apply IHa. intros p s' Hle. apply IHb.
    intros q t Ht. apply H. lia.
  - rewrite (IHa k k' prev s H), (IHb k k' prev s H). reflexivity.
  - apply star_ext; [exact IHa | exact H].
Qed.

Lemma m_false (r : regex) :
  forall prev s, m r (fun _ _ => false) prev s = false.
Proof.
  induction r as [| | c | items | | | | a IHa b IHb | a IHa b IHb | a IHa];
    intros prev s; cbn [m]; try reflexivity;
    try (destruct s as [|t s]; simpl; [reflexivity|];
         match goal with |- (if ?b then _ else _) = _ => destruct b end;
         reflexivity).
  - destruct (boundary prev s); reflexivity.
  - rewrite (@m_ext a (m b (fun _ _ => false)) (fun _ _ => false));
      [apply IHa|]. intros p s' _. apply IHb.
  - rewrite IHa. apply IHb.
  - generalize (length s) at 1. intros n. revert prev s.
    induction n as [|n IH]; intros prev s; simpl; [reflexivity|].
    rewrite (@m_ext a _ (fun _ _ => false)); [apply IHa|].
    intros p s' _. destruct (length s' <? length s)%nat; [apply IH|];
      reflexivity.
Qed.

Lemma star_step (a : regex) (k : cont) :
  forall n prev s,
    (length s <= n)%nat ->
    star (m a) k (S n) prev s = star (m a) k n prev s.
Proof.
  induction n as [|n IH]; intros prev s Hle.
  - cbn [star]. destruct (k prev s); [reflexivity|].
    rewrite (@m_ext a _ (fun _ _ => false)); [apply m_false|].
    intros p s' _.
    destruct (length s' <? length s)%nat eqn:E; [|reflexivity].
    apply Nat.ltb_lt in E. lia.
  - change (star (m a) k (S (S n)) prev s)
      with (if k prev s then true
            else m a (fun prev' s' =>
                        if (length s' <? length s)%nat
                        then star (m a) k (S n) prev' s' else false)
                   prev s).
    change (star (m a) k (S n) prev s)
      with (if k prev s then true
            else m a (fun prev' s' =>
                        if (length s' <? length s)%nat
                        then star (m a) k n prev' s' else false)
                   prev s).
    destruct (k prev s); [reflexivity|].
    apply m_ext. intros p s' _.
    destruct (length s' <? length s)%nat eqn:E; [|reflexivity].
    apply Nat.ltb_lt in E. apply IH. lia.
Qed.

(** More fuel than the length of the input changes nothing: the bound on
    the iterations of a starred pattern cuts no match off. *)
Lemma star_fuel (a : regex) (k : cont) (n : nat) :
  forall prev s,
    (length s <= n)%nat ->
    star (m a) k n prev s = star (m a) k (length s) prev s.
Proof.
  induction n as [|n IH]; intros prev s Hle.
  - replace (length s) with O by lia. reflexivity.
  - destruct (Nat.eq_dec (length s) (S n)) as [->|Hne]; [reflexivity|].
    rewrite star_step by lia. apply IH. lia.
Qed.

(** Every pattern of the program is accepted by [compile]. *)
Lemma patterns_compile :
  forallb parsed
    [RE_TIME_PROPOSE; RE_TIME_CONFIRM; RE_TIME_RESCHED; RE_ATTACH_ATTACHED;
     RE_ATTACH_EXPECT; RE_URGENT; RE_LOW; RE_TONE_POS; RE_TONE_FRUS;
     RE_FOLLOWUP; RE_RESOLVED; RE_REVIEW; RE_EDIT; RE_PROVIDE_DOCS; RE_MEET]
  = true.
Proof. vm_compute. reflexivity. Qed.

(** One pattern spelled out. *)
Example RE_EDIT_parsed :
  RE_EDIT
  = Cat Bnd
      (Cat (Alt (word "edit")
           (Alt (word "revise")
           (Alt (word "revision")
           (Alt (seq_ (map Lit (u "chỉnh") ++ [Star Space]
                       ++ map Lit (u "sửa")))
                (word "sửa")))))
      (Cat Bnd Empty)).
Proof. vm_compute. reflexivity. Qed.

End EngineFacts.

(* ================================================================== *)
(** * The text views of [classify_labels] *)
(* ================================================================== *)

Section ViewFacts.
Context {U : tables}.

Lemma has_body_truthy (msg : Message) :
  has_body msg = true -> truthy_message msg = true.
Proof.
  unfold has_body, truthy_message.
  destruct (body msg); simpl; try discriminate.
  intros _. rewrite !orb_true_r. reflexivity.
Qed.

Lemma filter_truthy_has_body (messages : list Message) :
  filter (fun msg => truthy_message msg && has_body msg) messages
  = filter has_body messages.
Proof.
  apply filter_ext. intros msg.
  destruct (has_body msg) eqn:E; [|apply andb_false_r].
  rewrite (has_body_truthy _ E). reflexivity.
Qed.

Lemma last_k_nil {A} (k : nat) : last_k k (@nil A) = [].
Proof. unfold last_k. destruct (length (@nil A) - k)%nat; reflexivity. Qed.

(** [_last_texts] returns the last [k] entries of the list of bodies
    [classify_labels] builds for itself. *)
Lemma _last_texts_bodies (messages : list Message) (k : nat) :
  _last_texts messages k = last_k k (bodies messages).
Proof.
  unfold _last_texts, bodies. rewrite filter_truthy_has_body.
  destruct (map _ _); [rewrite last_k_nil|]; reflexivity.
Qed.

Lemma bodies_spec (messages : list Message) :
  bodies messages = Spec.nonempty_bodies messages.
Proof.
  unfold bodies, Spec.nonempty_bodies.
  induction messages as [|msg ms IH]; simpl; [reflexivity|].
  unfold has_body at 1.
  destruct (body msg) as [| |[|c b]] eqn:E; simpl; rewrite ?E, IH;
    reflexivity.
Qed.

Lemma last_k_rev {A} (k : nat) (l : list A) :
  last_k k l = rev (firstn k (rev l)).
Proof. unfold last_k. rewrite firstn_rev, rev_involutive. reflexivity. Qed.

Lemma all_text_spec (subject : str) (messages : list Message) :
  all_text subject messages = Spec.all_text subject messages.
Proof. unfold all_text, Spec.all_text. rewrite bodies_spec. reflexivity. Qed.

Lemma last_any_spec (messages : list Message) :
  last_any messages = Spec.tail messages.
Proof.
  unfold last_any, last, Spec.tail.
  rewrite _last_texts_bodies, bodies_spec, last_k_rev. reflexivity.
Qed.

Lemma last_rev {A} (l : list A) (d : A) :
  List.last l d = match rev l with x :: _ => x | [] => d end.
Proof.
  induction l as [|x l IH] using rev_ind; [reflexivity|].
  rewrite last_last, rev_app_distr. reflexivity.
Qed.

Lemma last1_spec (messages : list Message) :
  last1 messages = Spec.last messages.
Proof.
  unfold last1, last, last_or, Spec.last.
  rewrite _last_texts_bodies, bodies_spec, last_k_rev.
  set (r := rev (Spec.nonempty_bodies messages)).
  rewrite last_rev, rev_involutive.
  destruct r as [|b r]; [reflexivity|].
  change (firstn 3 (b :: r)) with (b :: firstn 2 r).
  change (rev (b :: firstn 2 r)) with (rev (firstn 2 r) ++ [b]).
  destruct (rev (firstn 2 r)); reflexivity.
Qed.

End ViewFacts.

(* ================================================================== *)
(** * The label cascades *)
(* ================================================================== *)

Section LabelFacts.
Context {U : tables}.

Ltac open_label :=
  intros;
  repeat match goal with x := _ |- _ => subst x end;
  cbv beta iota zeta delta
    [classify_labels scheduling request_type attachments tone urgency
     thread_state];
  rewrite ?last1_spec, ?last_any_spec, ?all_text_spec.

(** C3.  The scheduling label is a strict priority cascade over the tail
    view and the whole text: a confirmation pattern in the tail gives
    CONFIRMED_TIME; otherwise a reschedule pattern in the tail gives
    RESCHEDULE; otherwise a proposal pattern anywhere in the text gives
    PROPOSED_TIME; otherwise NO_MEETING.  In particular a confirmation in
    the tail wins over a reschedule keyword, wherever that one stands. *)
Theorem scheduling_priority_cascade :
  forall (subject : str) (messages : list Message),
    let tail := Spec.tail messages in
    let text := Spec.all_text subject messages in
    let result := scheduling (classify_labels subject messages) in
    result =
      (if search RE_TIME_CONFIRM tail then CONFIRMED_TIME
       else if search RE_TIME_RESCHED tail then RESCHEDULE
       else if search RE_TIME_PROPOSE text then PROPOSED_TIME
       else NO_MEETING)
    /\ (search RE_TIME_CONFIRM tail = true ->
        (search RE_TIME_RESCHED tail = true
         \/ search RE_TIME_RESCHED text = true) ->
        result = CONFIRMED_TIME /\ result <> RESCHEDULE).
Proof.
  open_label. split; [reflexivity|].
  intros ->. intros _. split; [reflexivity | discriminate].
Qed.

(** C6.  The request type is a first-match cascade: SCHEDULE/MEET when the
    text matches the meeting terms or the scheduling label is not
    NO_MEETING; else PROVIDE_DOCS when the text expects an attachment and
    does not say it is attached; else REVIEW/APPROVE, EDIT/REVISE,
    PROVIDE_DOCS on their terms in this order; else INFO_ONLY. *)
Theorem request_type_cascade :
  forall (subject : str) (messages : list Message),
    let text := Spec.all_text subject messages in
    let no_meeting :=
      match scheduling (classify_labels subject messages) with
      | NO_MEETING => true
      | _ => false
      end in
    request_type (classify_labels subject messages) =
      if search RE_MEET text || negb no_meeting then SCHEDULE_MEET
      else if search RE_ATTACH_EXPECT text
              && negb (search RE_ATTACH_ATTACHED text) then PROVIDE_DOCS
      else if search RE_REVIEW text then REVIEW_APPROVE
      else if search RE_EDIT text then EDIT_REVISE
      else if search RE_PROVIDE_DOCS text then PROVIDE_DOCS
      else INFO_ONLY.
Proof.
  intros subj msgs. open_label.
  destruct (search RE_TIME_CONFIRM (Spec.tail msgs)),
    (search RE_TIME_RESCHED (Spec.tail msgs)),
    (search RE_TIME_PROPOSE (Spec.all_text subj msgs)); reflexivity.
Qed.

(** C7.  The attachments field is never empty.  It holds ATTACHED exactly
    when the already-attached pattern matches the text, and
    EXPECTING_ATTACHMENT exactly when the expect-attachment pattern does
    (both may be there); it is the one-element list NONE_MENTIONED exactly
    when neither matches. *)
Theorem attachments_nonempty_multilabel :
  forall (subject : str) (messages : list Message),
    let text := Spec.all_text subject messages in
    let result := attachments (classify_labels subject messages) in
    result <> []
    /\ (In ATTACHED result <-> search RE_ATTACH_ATTACHED text = true)
    /\ (In EXPECTING_ATTACHMENT result
        <-> search RE_ATTACH_EXPECT text = true)
    /\ (result = [NONE_MENTIONED]
        <-> search RE_ATTACH_ATTACHED text = false
            /\ search RE_ATTACH_EXPECT text = false)
    /\ (In NONE_MENTIONED result -> result = [NONE_MENTIONED]).
Proof.
  intros subj msgs. open_label.
  destruct (search RE_ATTACH_ATTACHED (Spec.all_text subj msgs)),
    (search RE_ATTACH_EXPECT (Spec.all_text subj msgs));
    simpl; repeat split; intros; try discriminate; try reflexivity;
    repeat match goal with
           | H : _ \/ _ |- _ => destruct H
           | H : _ /\ _ |- _ => destruct H
           | H : False |- _ => destruct H
           end;
    try discriminate; auto.
Qed.

(** C8.  The tone follows the exclusive-match rule, the last non-empty body
    first: FRUSTRATED when it matches the frustration pattern and not the
    positive one, POSITIVE when it matches the positive one only.  When it
    matches both or neither, the same rule is applied to the tail view, and
    when that is not conclusive either the tone is NEUTRAL. *)
Theorem tone_exclusive_cascade :
  forall (subject : str) (messages : list Message),
    tone (classify_labels subject messages) =
      match Spec.exclusive_tone (Spec.last messages) with
      | Some t => t
      | None =>
          match Spec.exclusive_tone (Spec.tail messages) with
          | Some t => t
          | None => NEUTRAL
          end
      end.
Proof.
  intros subj msgs. open_label. unfold Spec.exclusive_tone.
  destruct (search RE_TONE_FRUS (Spec.last msgs)),
    (search RE_TONE_POS (Spec.last msgs)),
    (search RE_TONE_FRUS (Spec.tail msgs)),
    (search RE_TONE_POS (Spec.tail msgs)); reflexivity.
Qed.

End LabelFacts.

(** Scenario 3: the reschedule keyword of the earlier mail is still in the
    tail, and the confirmation of the later one decides. *)
Lemma scheduling_priority_cascade_witness :
  let label := classify_labels [] (sorted sort_key Examples.move_then_confirm)
  in scheduling label = CONFIRMED_TIME /\ scheduling label <> RESCHEDULE.
Proof.
  refine (proj2 (scheduling_priority_cascade
                   [] (sorted sort_key Examples.move_then_confirm)) _ _).
  - vm_compute. reflexivity.
  - left. vm_compute. reflexivity.
Defined.

(** A thread whose only message asks for a file and attaches none. *)
Lemma attachments_nonempty_multilabel_witness :
  In EXPECTING_ATTACHMENT
     (attachments
        (classify_labels (u "Team sync")
           [Examples.mail "2024-05-01"
              "Can we meet Monday at 10:00? Please send the file too."])).
Proof.
  refine (proj2 (proj1 (proj2 (proj2
    (attachments_nonempty_multilabel (u "Team sync")
       [Examples.mail "2024-05-01"
          "Can we meet Monday at 10:00? Please send the file too."])))) _).
  vm_compute. reflexivity.
Defined.

(* ================================================================== *)
(** * Normalization and the caller's data *)
(* ================================================================== *)

Section NormalizeFacts.

Lemma set_defaults_idem (msg : Message) :
  set_defaults (set_defaults msg) = set_defaults msg.
Proof.
  destruct msg as [[| |?] [| |?] [| |?] [| |?]]; reflexivity.
Qed.

(** The loop of [normalize_thread] fills the dictionaries the list refers
    to, once however often the list refers to them, and no other. *)
Lemma normalize_loop (messages : list loc) (h : heap) (l : loc) :
  fold_left (fun h msg => upd h msg (set_defaults (h msg))) messages h l
  = if existsb (Nat.eqb l) messages then set_defaults (h l) else h l.
Proof.
  revert h; induction messages as [|a ms IH]; intros h;
    cbn [fold_left existsb]; [reflexivity|].
  rewrite IH. unfold upd.
  destruct (Nat.eqb_spec l a) as [E|E]; [subst a|];
    destruct (existsb (Nat.eqb l) ms); cbn [orb];
    rewrite ?set_defaults_idem; reflexivity.
Qed.


Lemma set_defaults_fields (msg : Message) :
  timestamp (set_defaults msg)
  = match timestamp msg with Absent => Val [] | kept => kept end
  /\ from (set_defaults msg)
     = match from msg with Absent => Val [] | kept => kept end
  /\ to (set_defaults msg)
     = match to msg with Absent => Val [] | kept => kept end
  /\ body (set_defaults msg)
     = match body msg with Absent => Val [] | kept => kept end.
Proof.
  destruct msg as [[| |?] [| |?] [| |?] [| |?]]; repeat split.
Qed.

Lemma sort_key_text (msg : Message) : sort_key msg = Spec.timestamp_text msg.
Proof.
  unfold sort_key, Spec.timestamp_text.
  destruct (timestamp msg) as [| |[|c t]]; reflexivity.
Qed.

End NormalizeFacts.

Section ClassifyFacts.
Context {U : tables}.

(** What [classify_thread] hands to [normalize_thread]'s loop is the
    message list of the document. *)
Lemma classify_thread_heap (data : option Data) (h : heap) :
  fst (classify_thread data h)
  = fold_left (fun h msg => upd h msg (set_defaults (h msg)))
              (Spec.thread_messages data) h.
Proof.
  destruct data as [[[| |[s [| |[|m ms]]]]]|]; try reflexivity;
    destruct s as [| |[|c s]]; reflexivity.
Qed.

Lemma search_nil_patterns :
  forallb (fun r => negb (search r []))
    [RE_TIME_PROPOSE; RE_TIME_CONFIRM; RE_TIME_RESCHED; RE_ATTACH_ATTACHED;
     RE_ATTACH_EXPECT; RE_URGENT; RE_LOW; RE_TONE_POS; RE_TONE_FRUS;
     RE_FOLLOWUP; RE_RESOLVED; RE_REVIEW; RE_EDIT; RE_PROVIDE_DOCS; RE_MEET]
  = true.
Proof. vm_compute. reflexivity. Qed.

Lemma classify_labels_empty : classify_labels [] [] = Spec.default_label.
Proof.
  assert (Ha : all_text [] [] = []) by (cbv -[lower]; apply lower_nil).
  cbv beta zeta delta [classify_labels]. rewrite Ha.
  change (last1 []) with (@nil Z). change (last_any []) with (@nil Z).
  vm_compute. reflexivity.
Qed.

(** C9.  [classify_thread] writes to the caller's data in one way only: a
    message dictionary of the thread gets each of the keys timestamp, from,
    to and body that it lacks, bound to the empty string (the empty list
    for to).  A key that is there keeps what it is bound to, a value or
    [None]; no key goes away, and a dictionary the thread does not list is
    left as it is. *)
Theorem classify_thread_frame :
  forall (data : option Data) (h : heap) (l : loc),
    let before := h l in
    let after := fst (classify_thread data h) l in
    if existsb (Nat.eqb l) (Spec.thread_messages data) then
      Spec.only_filled [] (timestamp before) (timestamp after)
      /\ Spec.only_filled [] (from before) (from after)
      /\ Spec.only_filled [] (to before) (to after)
      /\ Spec.only_filled [] (body before) (body after)
    else after = before.
Proof.
  intros data h l before after. subst before after.
  rewrite classify_thread_heap, normalize_loop.
  destruct (existsb _ _); [|reflexivity].
  destruct (set_defaults_fields (h l)) as (Ht & Hf & Hto & Hb).
  rewrite Ht, Hf, Hto, Hb. unfold Spec.only_filled.
  destruct (timestamp (h l)), (from (h l)), (to (h l)), (body (h l));
    repeat split.
Qed.

(** C10.  A document that is [None], or whose thread is missing or [None],
    is classified like the empty thread [{"thread": {}}]: no exception,
    the digest of the empty byte string as identifier, the default
    label, and no change to the heap. *)
Theorem classify_thread_missing_thread :
  forall (h : heap),
    let empty := classify_thread (Some {| thread := Val empty_thread |}) h in
    classify_thread None h = empty
    /\ classify_thread (Some {| thread := Absent |}) h = empty
    /\ classify_thread (Some {| thread := Null |}) h = empty
    /\ empty =
       (h, Ok {| thread_id := u "da39a3ee5e6b4b0d3255bfef95601890afd80709";
                 label := Spec.default_label |})
    /\ Spec.digest ([] ++ [] ++ [])
       = Ok (u "da39a3ee5e6b4b0d3255bfef95601890afd80709").
Proof.
  intros h empty. subst empty.
  repeat split; try reflexivity.
  cbv beta iota zeta delta
    [classify_thread normalize_thread or_ get thread subject messages
     truthy_thread truthy_data present empty_thread empty_data truthy_seq
     fold_left sort_messages sorted map orb].
  rewrite classify_labels_empty. reflexivity.
Qed.

End ClassifyFacts.

(** C9, as the specification has it, fails: after classifying a thread whose
    one message is [{}], that message holds four keys. *)
Lemma classify_thread_mutates_input :
  let h := Examples.heap_of [empty_message] in
  let data := Examples.doc Absent 1 in
  (exists c, snd (classify_thread data h) = Ok c)
  /\ h O = empty_message
  /\ fst (classify_thread data h) O
     = {| timestamp := Val []; from := Val []; to := Val [];
          body := Val [] |}
  /\ fst (classify_thread data h) O <> h O.
Proof.
  repeat split.
  - eexists. vm_compute. reflexivity.
  - vm_compute. discriminate.
Qed.

(** C1.  A thread whose only message has a [None] timestamp makes
    [classify_thread] raise [TypeError]: [setdefault] leaves the [None] in
    place and [compute_thread_id] adds it to the subject. *)
Theorem classify_thread_null_timestamp_raises :
  snd (classify_thread (Examples.doc Absent 1)
                       (Examples.heap_of [Examples.null_timestamp]))
  = Raise TypeError.
Proof. vm_compute. reflexivity. Qed.

(** C2.  After [normalize_thread] a timestamp that was [None] is still
    [None], not the empty string; the keys that were missing are filled. *)
Theorem normalize_thread_keeps_null :
  fst (normalize_thread
         (Some {| subject := Absent; messages := Val [O] |})
         (Examples.heap_of [Examples.null_timestamp])) O
  = {| timestamp := Null; from := Val []; to := Val []; body := Val [] |}.
Proof. vm_compute. reflexivity. Qed.

(* ================================================================== *)
(** * UTF-8 and SHA-1 *)
(* ================================================================== *)

Section Sha1Facts.

Lemma blocks_fuel (f f' : nat) :
  forall (h : SHA1.state) (bs : list Z),
    (length bs <= f)%nat -> (length bs <= f')%nat ->
    SHA1.blocks f h bs = SHA1.blocks f' h bs.
Proof.
  revert f'; induction f as [|f IH]; intros f' h bs Hf Hf'.
  - destruct bs; [|simpl in Hf; lia]. destruct f'; reflexivity.
  - destruct bs as [|b bs]; [destruct f'; reflexivity|].
    destruct f' as [|f']; [simpl in Hf'; lia|].
    cbn [SHA1.blocks]. apply IH.
    + rewrite length_skipn. simpl in *. lia.
    + rewrite length_skipn. simpl in *. lia.
Qed.

Lemma encode_utf8_ok (s : str) :
  Spec.encodable s = true -> exists bs, encode_utf8 s = Ok bs.
Proof.
  induction s as [|c s IH]; simpl; [eexists; reflexivity|].
  intros H. apply andb_true_iff in H. destruct H as [Hc Hs].
  destruct (IH Hs) as [bs E]. rewrite Hc, E. eexists; reflexivity.
Qed.

Lemma digest_ok (s : str) :
  Spec.encodable s = true ->
  exists bs, encode_utf8 s = Ok bs
             /\ Spec.digest s = Ok (SHA1.hexdigest (SHA1.sha1 bs)).
Proof.
  intros H. destruct (encode_utf8_ok s H) as [bs E].
  exists bs. split; [exact E|]. unfold Spec.digest. rewrite E. reflexivity.
Qed.

End Sha1Facts.

(* ================================================================== *)
(** * The thread identifier *)
(* ================================================================== *)

Section DigestFacts.

Lemma hex_digit_lower (n : Z) :
  0 <= n < 16 -> Spec.is_lower_hex (SHA1.hex_digit n) = true.
Proof.
  intros Hn. unfold Spec.is_lower_hex, SHA1.hex_digit.
  destruct (Z.ltb_spec n 10); rewrite orb_true_iff, !andb_true_iff,
    !Z.leb_le; lia.
Qed.

Lemma hex_word_length (n : nat) (x : Z) : length (SHA1.hex_word n x) = n.
Proof. induction n as [|n IH]; simpl; [|rewrite IH]; reflexivity. Qed.

Lemma hex_word_lower (n : nat) (x : Z) :
  forallb Spec.is_lower_hex (SHA1.hex_word n x) = true.
Proof.
  induction n as [|n IH]; [reflexivity|].
  cbn [SHA1.hex_word forallb]. rewrite IH, hex_digit_lower; [reflexivity|].
  apply Z.mod_pos_bound. lia.
Qed.

Lemma hexdigest_length (s : SHA1.state) :
  length (SHA1.hexdigest s) = 40%nat.
Proof.
  destruct s as [[[[h0 h1] h2] h3] h4]. unfold SHA1.hexdigest.
  rewrite !length_app, !hex_word_length. reflexivity.
Qed.

Lemma hexdigest_lower (s : SHA1.state) :
  forallb Spec.is_lower_hex (SHA1.hexdigest s) = true.
Proof.
  destruct s as [[[[h0 h1] h2] h3] h4]. unfold SHA1.hexdigest.
  rewrite !forallb_app, !hex_word_lower. reflexivity.
Qed.

(** Whatever [compute_thread_id] returns is a digest. *)
Lemma compute_thread_id_hex (subject : str) (ms : list loc) (h : heap)
      (tid : str) :
  compute_thread_id subject ms h = Ok tid ->
  exists bytes, tid = SHA1.hexdigest (SHA1.sha1 bytes).
Proof.
  unfold compute_thread_id, bind.
  repeat match goal with
         | |- context [match ?x with _ => _ end] =>
             destruct x; try discriminate
         end.
  intros E; injection E as <-. eexists; reflexivity.
Qed.

(** [compute_thread_id] reads nothing but timestamps. *)
Lemma compute_thread_id_ext (subject : str) (ms : list loc) (h h' : heap) :
  (forall l, timestamp (h' l) = timestamp (h l)) ->
  compute_thread_id subject ms h' = compute_thread_id subject ms h.
Proof.
  intros E. unfold compute_thread_id.
  destruct ms as [|l ms]; [reflexivity|]. rewrite !E. reflexivity.
Qed.

Lemma last_timestamp_last (l : loc) (ms : list loc) (h : heap) :
  Spec.last_timestamp (l :: ms) h
  = Spec.timestamp_text (h (List.last (l :: ms) O)).
Proof.
  unfold Spec.last_timestamp.
  destruct (exists_last (l := l :: ms)) as [pre [z E]]; [discriminate|].
  rewrite E, last_last, rev_app_distr. reflexivity.
Qed.

Lemma compute_thread_id_filled (subject : str) (ms : list loc) (h : heap) :
  forallb (fun l => Spec.filled (timestamp (h l))) ms = true ->
  compute_thread_id subject ms h
  = Spec.digest (subject ++ Spec.first_timestamp ms h
                         ++ Spec.last_timestamp ms h).
Proof.
  intros Hall. unfold compute_thread_id, Spec.digest, fmap.
  destruct ms as [|l ms].
  { cbn [bind add_str Spec.first_timestamp Spec.last_timestamp rev].
    rewrite <- app_assoc. reflexivity. }
  assert (Hl : Spec.filled (timestamp (h l)) = true).
  { simpl in Hall. apply andb_true_iff in Hall. tauto. }
  assert (Hlast : Spec.filled
                    (timestamp (h (List.last (l :: ms) O))) = true).
  { rewrite forallb_forall in Hall. apply Hall.
    destruct (exists_last (l := l :: ms)) as [pre [z E]]; [discriminate|].
    rewrite E, last_last. apply in_or_app. right. left. reflexivity. }
  rewrite last_timestamp_last.
  unfold Spec.first_timestamp, Spec.timestamp_text.
  destruct (timestamp (h l)); try discriminate.
  destruct (timestamp (h (List.last (l :: ms) O))); try discriminate.
  cbn [getitem bind add_str]. rewrite <- app_assoc. reflexivity.
Qed.

End DigestFacts.

Section ThreadIdFacts.
Context {U : tables}.

Lemma set_defaults_timestamp (m m' : Message) :
  timestamp m' = timestamp m ->
  timestamp (set_defaults m') = timestamp (set_defaults m).
Proof. intros E. unfold set_defaults; simpl. rewrite E. reflexivity. Qed.

(** The identifier [classify_thread] returns does not look at anything but
    the subject and the timestamps. *)
Lemma classify_thread_id_ext (data : option Data) (h h' : heap) :
  (forall l, timestamp (h' l) = timestamp (h l)) ->
  fmap thread_id (snd (classify_thread data h'))
  = fmap thread_id (snd (classify_thread data h)).
Proof.
  intros E.
  assert (E1 : forall l, timestamp (fst (classify_thread data h') l)
                         = timestamp (fst (classify_thread data h) l)).
  { intros l. rewrite !classify_thread_heap, !normalize_loop.
    destruct (existsb _ _); [apply set_defaults_timestamp|]; apply E. }
  revert E1. unfold classify_thread.
  destruct (normalize_thread _ h') as [h1' [s' ms']] eqn:N'.
  destruct (normalize_thread _ h) as [h1 [s ms]] eqn:N.
  cbn [fst snd]. intros E1.
  assert (Es : (s', ms') = (s, ms)).
  { unfold normalize_thread in N, N'.
    injection N as _ <- <-. injection N' as _ <- <-. reflexivity. }
  injection Es as -> ->.
  assert (Eq : sort_messages ms h1' = sort_messages ms h1).
  { unfold sort_messages. apply sorted_ext. intros l.
    unfold sort_key. rewrite E1. reflexivity. }
  rewrite Eq, (compute_thread_id_ext s (sort_messages ms h1) h1 h1' E1).
  destruct (compute_thread_id s (sort_messages ms h1) h1); reflexivity.
Qed.

(** C4.  On a thread whose messages carry a timestamp string,
    [compute_thread_id] is the SHA-1 hex digest of the UTF-8 bytes of the
    subject followed by the first and the last message's timestamp (two
    empty strings when there is no message).  Whenever it returns, the
    identifier is forty lower-case hexadecimal digits.  It is a function of
    that triple, and [classify_thread] gives two heaps that agree on the
    timestamps (and may differ in the bodies) the same identifier. *)
Theorem thread_id_digest :
  forall (subject : str) (messages_sorted : list loc) (h : heap),
    (forallb (fun l => Spec.filled (timestamp (h l))) messages_sorted = true
     -> compute_thread_id subject messages_sorted h
        = Spec.digest (subject ++ Spec.first_timestamp messages_sorted h
                               ++ Spec.last_timestamp messages_sorted h))
    /\ (forallb (fun l => Spec.filled (timestamp (h l))) messages_sorted
        = true ->
        Spec.encodable (subject ++ Spec.first_timestamp messages_sorted h
                                ++ Spec.last_timestamp messages_sorted h)
        = true ->
        exists bytes,
          encode_utf8 (subject ++ Spec.first_timestamp messages_sorted h
                               ++ Spec.last_timestamp messages_sorted h)
          = Ok bytes
          /\ compute_thread_id subject messages_sorted h
             = Ok (SHA1.hexdigest (SHA1.sha1 bytes)))
    /\ (forall tid,
           compute_thread_id subject messages_sorted h = Ok tid ->
           length tid = 40%nat /\ forallb Spec.is_lower_hex tid = true)
    /\ (forall subject' messages_sorted' h',
           forallb (fun l => Spec.filled (timestamp (h l))) messages_sorted
           = true ->
           forallb (fun l => Spec.filled (timestamp (h' l))) messages_sorted'
           = true ->
           subject' = subject ->
           Spec.first_timestamp messages_sorted' h'
           = Spec.first_timestamp messages_sorted h ->
           Spec.last_timestamp messages_sorted' h'
           = Spec.last_timestamp messages_sorted h ->
           compute_thread_id subject' messages_sorted' h'
           = compute_thread_id subject messages_sorted h)
    /\ (forall data h',
           (forall l, timestamp (h' l) = timestamp (h l)) ->
           fmap thread_id (snd (classify_thread data h'))
           = fmap thread_id (snd (classify_thread data h))).
Proof.
  intros subject ms h.
  split; [apply compute_thread_id_filled|].
  split; [|split; [|split]].
  - intros F Henc. rewrite compute_thread_id_filled by exact F.
    apply digest_ok. exact Henc.
  - intros tid Htid. apply compute_thread_id_hex in Htid.
    destruct Htid as [bytes ->].
    split; [apply hexdigest_length | apply hexdigest_lower].
  - intros subject' ms' h' F F' -> E1 E2.
    rewrite !compute_thread_id_filled, E1, E2 by assumption. reflexivity.
  - intros data h'. apply classify_thread_id_ext.
Qed.

End ThreadIdFacts.

(** Two mails with different bodies and identical timestamps: the
    identifier is the digest of subject and the two timestamps. *)
Lemma thread_id_digest_witness :
  let h := Examples.heap_of Examples.same_time in
  let sorted_ := sort_messages [0; 1; 2]%nat h in
  compute_thread_id (u "Team sync") sorted_ h
  = Spec.digest (u "Team sync2024-05-012024-05-02").
Proof.
  intros h sorted_.
  exact (proj1 (thread_id_digest (u "Team sync") sorted_ h) eq_refl).
Defined.

(* ================================================================== *)
(** * Sorting the messages *)
(* ================================================================== *)

Section SortFacts.

Lemma filter_split {A} (p : A -> bool) (l x y : list A) (a : A) :
  filter p l = x ++ a :: y ->
  exists l1 l2, l = l1 ++ a :: l2 /\ filter p l1 = x /\ filter p l2 = y.
Proof.
  revert x; induction l as [|b l IH]; intros x; simpl.
  - destruct x; discriminate.
  - destruct (p b) eqn:Hb.
    + destruct x as [|c x]; simpl; intros E; injection E as -> E.
      * exists [], l. simpl. auto.
      * destruct (IH _ E) as (l1 & l2 & -> & <- & <-).
        exists (c :: l1), l2. simpl. rewrite Hb. auto.
    + intros E. destruct (IH _ E) as (l1 & l2 & -> & <- & <-).
      exists (b :: l1), l2. simpl. rewrite Hb. auto.
Qed.

Lemma sort_messages_text (messages : list loc) (h : heap) :
  sort_messages messages h
  = sorted (fun l => Spec.timestamp_text (h l)) messages.
Proof.
  unfold sort_messages. apply sorted_ext. intros l. apply sort_key_text.
Qed.

(** C5.  [sort_messages] returns the messages in ascending order of their
    timestamps (a missing or [None] timestamp counting as the empty
    string), compared as strings, code point by code point, the empty string
    before every other.  The sort is stable: two messages with equal
    timestamps come out in the order they went in, and more generally the
    messages that share a timestamp form the same sequence before and
    after. *)
Theorem sort_messages_stable :
  forall (messages : list loc) (h : heap),
    let ts := fun l => Spec.timestamp_text (h l) in
    let out := sort_messages messages h in
    Permutation messages out
    /\ StronglySorted (fun a b => str_lt (ts b) (ts a) = false) out
    /\ (forall a b l1 l2 l3,
           messages = l1 ++ a :: l2 ++ b :: l3 -> ts a = ts b ->
           exists o1 o2 o3, out = o1 ++ a :: o2 ++ b :: o3)
    /\ (forall t,
           filter (fun l => str_eqb (ts l) t) out
           = filter (fun l => str_eqb (ts l) t) messages)
    /\ (forall s, str_lt s [] = false)
    /\ (forall c s, str_lt [] (c :: s) = true)
    /\ (forall x y a b,
           str_lt (x :: a) (y :: b) = true
           <-> x < y \/ (x = y /\ str_lt a b = true)).
Proof.
  intros messages h ts out. subst out. rewrite sort_messages_text.
  fold ts.
  assert (Hstable : forall t,
             filter (fun l => str_eqb (ts l) t) (sorted ts messages)
             = filter (fun l => str_eqb (ts l) t) messages)
    by (intros t; apply sorted_filter).
  split; [apply sorted_perm|].
  split; [apply (sorted_sorted ts)|].
  split; [|split; [exact Hstable|]].
  - intros a b l1 l2 l3 -> Hab.
    specialize (Hstable (ts a)).
    set (p := fun l => str_eqb (ts l) (ts a)) in Hstable.
    assert (Pa : p a = true) by (apply str_eqb_eq; reflexivity).
    assert (Pb : p b = true)
      by (apply str_eqb_eq; symmetry; exact Hab).
    rewrite filter_app in Hstable. cbn [filter] in Hstable.
    rewrite Pa, filter_app in Hstable. cbn [filter] in Hstable.
    rewrite Pb in Hstable.
    apply filter_split in Hstable.
    destruct Hstable as (o1 & o2' & E & _ & H2).
    apply filter_split in H2. destruct H2 as (o2 & o3 & -> & _ & _).
    exists o1, o2, o3. exact E.
  - split; [apply str_lt_nil_r|]. split; [reflexivity|].
    intros. apply str_lt_cons.
Qed.

End SortFacts.

(** Of three mails the last two carry the same timestamp; they follow each
    other in the output as they do in the input. *)
Lemma sort_messages_stable_witness :
  exists o1 o2 o3,
    sort_messages [0; 1; 2]%nat (Examples.heap_of Examples.same_time)
    = o1 ++ 1%nat :: o2 ++ 2%nat :: o3.
Proof.
  refine (proj1 (proj2 (proj2
    (sort_messages_stable [0; 1; 2]%nat
                          (Examples.heap_of Examples.same_time))))
    1%nat 2%nat [0%nat] [] [] _ _); reflexivity.
Defined.

(* ================================================================== *)
(** * When [classify_thread] returns *)
(* ================================================================== *)

Section Totality.
Context {U : tables}.

Lemma classify_thread_unfold (data : option Data) (h : heap) :
  classify_thread data h
  = let subject := Spec.thread_subject data in
    let messages := Spec.thread_messages data in
    let h1 := fold_left (fun h msg => upd h msg (set_defaults (h msg)))
                        messages h in
    let messages_sorted := sort_messages messages h1 in
    (h1,
     bind (compute_thread_id subject messages_sorted h1) (fun tid =>
     Ok {| thread_id := tid;
           label := classify_labels subject (map h1 messages_sorted) |})).
Proof.
  destruct data as [[[| |[s [| |[|m ms]]]]]|]; try reflexivity;
    destruct s as [| |[|c s]]; reflexivity.
Qed.

(** The two ways to fail are the only ones: when no message of the thread
    has a [None] timestamp and the subject and the timestamps hold no
    surrogate, [classify_thread] returns an identifier and a label. *)
Lemma classify_thread_returns (data : option Data) (h : heap) :
  forallb (fun l => Spec.not_null (timestamp (h l)))
          (Spec.thread_messages data) = true ->
  Spec.encodable (Spec.thread_subject data) = true ->
  forallb (fun l => Spec.encodable (Spec.timestamp_text (h l)))
          (Spec.thread_messages data) = true ->
  exists tid,
    snd (classify_thread data h)
    = Ok {| thread_id := tid;
            label := classify_labels
                       (Spec.thread_subject data)
                       (map (fst (classify_thread data h))
                            (sort_messages (Spec.thread_messages data)
                               (fst (classify_thread data h)))) |}
    /\ length tid = 40%nat.
Proof.
  intros Hnull Hsubj Hts.
  rewrite forallb_forall in Hnull, Hts.
  rewrite classify_thread_unfold. cbn [fst snd].
  set (ms := Spec.thread_messages data) in *.
  set (h1 := fold_left _ ms h).
  set (ss := sort_messages ms h1).
  assert (Hin : forall l, In l ss -> In l ms).
  { intros l Hl. eapply Permutation_in; [|exact Hl].
    symmetry. unfold ss, sort_messages. apply sorted_perm. }
  assert (H1 : forall l, In l ms ->
             Spec.filled (timestamp (h1 l)) = true
             /\ Spec.encodable (Spec.timestamp_text (h1 l)) = true).
  { intros l Hl. unfold h1. rewrite normalize_loop.
    replace (existsb (Nat.eqb l) ms) with true.
    2:{ symmetry. apply existsb_exists. exists l.
        split; [exact Hl | apply Nat.eqb_refl]. }
    specialize (Hnull l Hl). specialize (Hts l Hl).
    unfold Spec.timestamp_text in *. cbn [set_defaults timestamp].
    destruct (timestamp (h l)); try discriminate; auto. }
  assert (F : forallb (fun l => Spec.filled (timestamp (h1 l))) ss = true).
  { apply forallb_forall. intros l Hl. apply H1, Hin, Hl. }
  assert (Henc : Spec.encodable
                   (Spec.thread_subject data
                    ++ Spec.first_timestamp ss h1
                    ++ Spec.last_timestamp ss h1) = true).
  { unfold Spec.encodable. rewrite !forallb_app.
    fold (Spec.encodable (Spec.thread_subject data)). rewrite Hsubj.
    destruct ss as [|l ss'] eqn:Ess; [reflexivity|].
    rewrite last_timestamp_last. cbn [Spec.first_timestamp andb].
    apply andb_true_iff. split.
    - apply H1, Hin. left. reflexivity.
    - apply H1, Hin.
      destruct (exists_last (l := l :: ss')) as [pre [z E]];
        [discriminate|].
      rewrite E, last_last. apply in_or_app. right. left. reflexivity. }
  rewrite (compute_thread_id_filled _ _ _ F).
  destruct (digest_ok _ Henc) as [bs [_ ->]].
  eexists. split; [reflexivity | apply hexdigest_length].
Qed.

End Totality.

(* ================================================================== *)
(** * The scenarios of the specification *)
(* ================================================================== *)

Section Scenarios.

(** Scenario 1: the empty thread. *)
Example scenario_empty_thread :
  snd (classify_thread (Some {| thread := Val empty_thread |})
                       (Examples.heap_of []))
  = Ok {| thread_id := u "da39a3ee5e6b4b0d3255bfef95601890afd80709";
          label := Spec.default_label |}.
Proof. vm_compute. reflexivity. Qed.

(** Scenario 2: a proposal and a request for a file. *)
Example scenario_proposal :
  Examples.label_of "Team sync"
    [Examples.mail "2024-05-01"
       "Can we meet Monday at 10:00? Please send the file too."]
  = Some {| request_type := SCHEDULE_MEET;
            urgency := STD_48H;
            thread_state := NEW;
            scheduling := PROPOSED_TIME;
            attachments := [EXPECTING_ATTACHMENT];
            tone := NEUTRAL |}.
Proof. vm_compute. reflexivity. Qed.

(** Scenario 3: a later confirmation overrides the earlier reschedule. *)
Example scenario_confirmation :
  option_map scheduling (Examples.label_of "" Examples.move_then_confirm)
  = Some CONFIRMED_TIME.
Proof. vm_compute. reflexivity. Qed.

(** Scenario 4: an apology without a positive phrase. *)
Example scenario_frustrated :
  option_map tone
    (Examples.label_of "" [Examples.mail "2024-05-01"
                    "Sorry for the delay, there was an issue"])
  = Some FRUSTRATED.
Proof. vm_compute. reflexivity. Qed.

(** Scenario 5: resolution comes before the message count. *)
Example scenario_resolved :
  option_map thread_state
    (Examples.label_of "" [Examples.mail "2024-05-01" "Any news?";
                  Examples.mail "2024-05-02" "Resolved, thanks!"])
  = Some RESOLVED.
Proof. vm_compute. reflexivity. Qed.

(** Both attachment labels at once. *)
Example scenario_both_attachments :
  option_map attachments
    (Examples.label_of "" [Examples.mail "2024-05-01"
                    "See attached. Please send the file back signed."])
  = Some [ATTACHED; EXPECTING_ATTACHMENT].
Proof. vm_compute. reflexivity. Qed.

(** An unpaired surrogate in the subject cannot be encoded. *)
Example scenario_surrogate :
  snd (classify_thread
         (Some {| thread := Val {| subject := Val [0xD800];
                                   messages := Absent |} |})
         (Examples.heap_of []))
  = Raise UnicodeEncodeError.
Proof. vm_compute. reflexivity. Qed.

End Scenarios.

(* ================================================================== *)
(** * Further properties of [classify_labels] *)
(* ================================================================== *)

Section MoreLabelFacts.
Context {U : tables}.

Ltac views :=
  repeat match goal with x := _ |- _ => subst x end;
  cbv beta iota zeta delta
    [classify_labels scheduling request_type attachments tone urgency
     thread_state];
  rewrite ?last1_spec, ?last_any_spec, ?all_text_spec.

(** X1.  Urgency: URGENT-24H exactly when the urgency pattern matches the
    text, whatever the no-rush pattern does; LOW-120H exactly when only the
    no-rush pattern matches; STD-48H exactly when neither does. *)
Theorem urgency_precedence :
  forall (subject : str) (messages : list Message),
    let text := Spec.all_text subject messages in
    let result := urgency (classify_labels subject messages) in
    (result = URGENT_24H <-> search RE_URGENT text = true)
    /\ (result = LOW_120H
        <-> search RE_URGENT text = false /\ search RE_LOW text = true)
    /\ (result = STD_48H
        <-> search RE_URGENT text = false /\ search RE_LOW text = false).
Proof.
  intros subj msgs text result. views.
  destruct (search RE_URGENT (Spec.all_text subj msgs)),
    (search RE_LOW (Spec.all_text subj msgs));
    repeat split; intros; try discriminate; try reflexivity;
    try (destruct H; discriminate).
Qed.

(** X2.  Thread state: RESOLVED exactly when the resolution pattern matches
    the tail, also in a thread of many messages.  Otherwise the state is NEW
    only for a thread of at most one message whose text has no follow-up
    cue; the count is of all messages, with or without a body, so a thread
    of two or more messages is never NEW. *)
Theorem thread_state_cascade :
  forall (subject : str) (messages : list Message),
    let text := Spec.all_text subject messages in
    let tail := Spec.tail messages in
    let result := thread_state (classify_labels subject messages) in
    (result = RESOLVED <-> search RE_RESOLVED tail = true)
    /\ (result = NEW
        <-> search RE_RESOLVED tail = false
            /\ search RE_FOLLOWUP text = false
            /\ (length messages <= 1)%nat)
    /\ ((2 <= length messages)%nat -> result <> NEW).
Proof.
  intros subj msgs text tail result. views.
  destruct (search RE_RESOLVED (Spec.tail msgs)),
    (search RE_FOLLOWUP (Spec.all_text subj msgs)),
    (Nat.ltb_spec 1 (length msgs)); cbn [orb];
    repeat split; intros; try discriminate; try reflexivity; try lia;
    repeat match goal with
           | H : _ /\ _ |- _ => destruct H
           end; try discriminate; try lia.
Qed.

(** X3.  The fields of one label agree with each other.  A scheduling
    outcome other than NO_MEETING always comes with the request type
    SCHEDULE/MEET; INFO_ONLY comes with NO_MEETING and never with a lone
    EXPECTING_ATTACHMENT; a lone EXPECTING_ATTACHMENT comes with
    SCHEDULE/MEET or PROVIDE_DOCS; and the attachments list is one of four
    lists, ATTACHED before EXPECTING_ATTACHMENT. *)
Theorem label_fields_consistent :
  forall (subject : str) (messages : list Message),
    let lbl := classify_labels subject messages in
    (scheduling lbl <> NO_MEETING -> request_type lbl = SCHEDULE_MEET)
    /\ (request_type lbl = INFO_ONLY ->
        scheduling lbl = NO_MEETING
        /\ attachments lbl <> [EXPECTING_ATTACHMENT])
    /\ (attachments lbl = [EXPECTING_ATTACHMENT] ->
        request_type lbl = SCHEDULE_MEET \/ request_type lbl = PROVIDE_DOCS)
    /\ In (attachments lbl)
          [[NONE_MENTIONED]; [ATTACHED]; [EXPECTING_ATTACHMENT];
           [ATTACHED; EXPECTING_ATTACHMENT]].
Proof.
  intros subj msgs lbl. views.
  destruct (search RE_TIME_CONFIRM (Spec.tail msgs)),
    (search RE_TIME_RESCHED (Spec.tail msgs)),
    (search RE_TIME_PROPOSE (Spec.all_text subj msgs)),
    (search RE_MEET (Spec.all_text subj msgs)),
    (search RE_ATTACH_EXPECT (Spec.all_text subj msgs)),
    (search RE_ATTACH_ATTACHED (Spec.all_text subj msgs));
    cbn [orb andb negb app truthy_seq];
    (split; [|split; [|split]]);
    try (intros _; reflexivity);
    try (intros H; exfalso; apply H; reflexivity);
    try (intros H; discriminate H);
    try (simpl; tauto);
    try (intros _; left; reflexivity);
    destruct (search RE_REVIEW (Spec.all_text subj msgs)),
      (search RE_EDIT (Spec.all_text subj msgs)),
      (search RE_PROVIDE_DOCS (Spec.all_text subj msgs));
    try (intros H; discriminate H);
    try (intros _; split; [reflexivity | discriminate]);
    try (intros _; right; reflexivity).
Qed.

End MoreLabelFacts.

Section WindowFacts.
Context {U : tables}.

Ltac views :=
  repeat match goal with x := _ |- _ => subst x end;
  cbv beta iota zeta delta
    [classify_labels scheduling request_type attachments tone urgency
     thread_state];
  rewrite ?last1_spec, ?last_any_spec, ?all_text_spec.

Lemma search_nil (r : regex) :
  In r [RE_TIME_CONFIRM; RE_TIME_RESCHED; RE_TONE_POS; RE_TONE_FRUS;
        RE_RESOLVED] ->
  search r [] = false.
Proof.
  intros H. apply negb_true_iff. revert r H. apply forallb_forall.
  vm_compute. reflexivity.
Qed.

Lemma bodiless_bodies (messages : list Message) :
  forallb (fun msg => negb (has_body msg)) messages = true ->
  Spec.nonempty_bodies messages = [].
Proof.
  rewrite <- bodies_spec. unfold bodies.
  induction messages as [|msg ms IH]; [reflexivity|].
  cbn [forallb filter]. intros H. apply andb_true_iff in H.
  destruct H as [Hm Hms]. apply negb_true_iff in Hm. rewrite Hm.
  apply IH, Hms.
Qed.

(** X4.  When no message has a non-empty body the subject is all the text
    there is, and the rules that look at the tail find nothing: the tone is
    NEUTRAL, the state is not RESOLVED and the scheduling outcome is neither
    CONFIRMED_TIME nor RESCHEDULE, whatever the subject says. *)
Theorem bodiless_thread_label :
  forall (subject : str) (messages : list Message),
    forallb (fun msg => negb (has_body msg)) messages = true ->
    let lbl := classify_labels subject messages in
    all_text subject messages = lower subject
    /\ tone lbl = NEUTRAL
    /\ thread_state lbl <> RESOLVED
    /\ scheduling lbl <> CONFIRMED_TIME
    /\ scheduling lbl <> RESCHEDULE.
Proof.
  intros subj msgs H lbl.
  pose proof (bodiless_bodies msgs H) as Hb.
  assert (Ht : Spec.tail msgs = []) by (unfold Spec.tail; rewrite Hb;
                                        reflexivity).
  assert (Hl : Spec.last msgs = []) by (unfold Spec.last; rewrite Hb;
                                        reflexivity).
  split.
  { rewrite all_text_spec. unfold Spec.all_text. rewrite Hb. reflexivity. }
  views. rewrite Ht, Hl.
  rewrite !search_nil by (simpl; tauto).
  cbn [andb negb].
  destruct (search RE_TIME_PROPOSE _), (search RE_FOLLOWUP _ || _);
    repeat split; discriminate.
Qed.

Lemma nonempty_bodies_of_bodies (messages : list Message) :
  Spec.nonempty_bodies messages
  = flat_map (fun b => match b with
                       | Val (c :: t) => [lower (c :: t)]
                       | _ => []
                       end) (map body messages).
Proof.
  unfold Spec.nonempty_bodies.
  induction messages as [|msg ms IH]; [reflexivity|].
  cbn [map flat_map]. rewrite IH. reflexivity.
Qed.

(** X5.  The label reads the subject, the bodies and the number of
    messages, and nothing else: two message lists with the same bodies in
    the same order get the same label, whatever their timestamps, senders
    and recipients. *)
Theorem label_reads_bodies_only :
  forall (subject : str) (messages messages' : list Message),
    map body messages = map body messages' ->
    classify_labels subject messages = classify_labels subject messages'.
Proof.
  intros subj ms ms' E.
  assert (Eb : Spec.nonempty_bodies ms = Spec.nonempty_bodies ms')
    by (rewrite !nonempty_bodies_of_bodies, E; reflexivity).
  assert (En : length ms = length ms')
    by (rewrite <- (length_map body ms), E; apply length_map).
  cbv beta zeta delta [classify_labels].
  rewrite !last1_spec, !last_any_spec, !all_text_spec, En.
  unfold Spec.all_text, Spec.tail, Spec.last. rewrite Eb. reflexivity.
Qed.

Lemma tail_older (older messages : list Message) :
  (3 <= length (Spec.nonempty_bodies messages))%nat ->
  Spec.tail (older ++ messages) = Spec.tail messages
  /\ Spec.last (older ++ messages) = Spec.last messages.
Proof.
  intros H. unfold Spec.tail, Spec.last, Spec.nonempty_bodies.
  rewrite flat_map_app. fold (Spec.nonempty_bodies older).
  fold (Spec.nonempty_bodies messages).
  rewrite rev_app_distr. rewrite <- length_rev in H.
  destruct (rev (Spec.nonempty_bodies messages)) as [|a [|b [|c r]]];
    simpl in H; try lia.
  split; reflexivity.
Qed.

(** X6.  The tail window: once a thread has three non-empty bodies, the
    messages before them take no part in the tone, in the choice of
    CONFIRMED_TIME or RESCHEDULE, or in RESOLVED; neither does the
    subject. *)
Theorem tail_window :
  forall (subject subject' : str) (older messages : list Message),
    (3 <= length (Spec.nonempty_bodies messages))%nat ->
    let a := classify_labels subject messages in
    let b := classify_labels subject' (older ++ messages) in
    tone b = tone a
    /\ (scheduling b = CONFIRMED_TIME <-> scheduling a = CONFIRMED_TIME)
    /\ (scheduling b = RESCHEDULE <-> scheduling a = RESCHEDULE)
    /\ (thread_state b = RESOLVED <-> thread_state a = RESOLVED).
Proof.
  intros subj subj' older msgs H a b.
  destruct (tail_older older msgs H) as [Et El].
  views. rewrite Et, El.
  destruct (search RE_TIME_CONFIRM (Spec.tail msgs)),
    (search RE_TIME_RESCHED (Spec.tail msgs)),
    (search RE_RESOLVED (Spec.tail msgs));
    (split; [reflexivity|]);
    repeat match goal with
           | |- context [if ?c then _ else _] => destruct c
           end;
    repeat split; intros; try discriminate; reflexivity.
Qed.

(** X7.  [_last_texts messages k], for [k] at least one, is the end of the
    list of lower-cased non-empty bodies: it has [k] entries, or all of them
    when there are fewer. *)
Theorem last_texts_window :
  forall (messages : list Message) (k : nat),
    (0 < k)%nat ->
    length (_last_texts messages k)
    = Nat.min k (length (Spec.nonempty_bodies messages))
    /\ exists earlier,
         Spec.nonempty_bodies messages = earlier ++ _last_texts messages k.
Proof.
  intros msgs k _. rewrite _last_texts_bodies, bodies_spec. unfold last_k.
  split.
  - rewrite length_skipn. lia.
  - eexists. symmetry. apply firstn_skipn.
Qed.

End WindowFacts.

(** The subject thanks and confirms; the only message has no body. *)
Lemma bodiless_thread_label_witness :
  tone (classify_labels (u "Confirmed, thanks") [Props.stamp "2024-05-01"])
  = NEUTRAL.
Proof.
  refine (proj1 (proj2 (bodiless_thread_label
                          (u "Confirmed, thanks")
                          [Props.stamp "2024-05-01"] _))).
  reflexivity.
Defined.

(** The same body, once as a full mail and once as a bare dictionary. *)
Lemma label_reads_bodies_only_witness :
  classify_labels (u "Team sync") [Examples.mail "2024-05-01" "See you"]
  = classify_labels (u "Team sync") [Props.bare "See you"].
Proof.
  apply (label_reads_bodies_only (u "Team sync")
           [Examples.mail "2024-05-01" "See you"] [Props.bare "See you"]).
  reflexivity.
Defined.

(** An angry first message followed by three friendly ones. *)
Lemma tail_window_witness :
  tone (classify_labels (u "Problem")
          ([Props.bare "This is frustrating"]
             ++ [Props.bare "Fixed now"; Props.bare "Great";
                 Props.bare "Thanks a lot"]))
  = tone (classify_labels []
            [Props.bare "Fixed now"; Props.bare "Great";
             Props.bare "Thanks a lot"]).
Proof.
  refine (proj1 (tail_window [] (u "Problem")
                   [Props.bare "This is frustrating"]
                   [Props.bare "Fixed now"; Props.bare "Great";
                    Props.bare "Thanks a lot"] _)).
  vm_compute. constructor.
Defined.

(** Two bodies and a window of three. *)
Lemma last_texts_window_witness :
  length (_last_texts [Props.bare "one"; Props.stamp "2024"; Props.bare "two"]
                      3) = 2%nat.
Proof.
  refine (proj1 (last_texts_window
                   [Props.bare "one"; Props.stamp "2024"; Props.bare "two"]
                   (k := 3) _)).
  lia.
Defined.

(* ================================================================== *)
(** * Further properties of the helpers of [classify_cli.py] *)
(* ================================================================== *)

Section MoreSortFacts.

Lemma sorted_id {A} (key : A -> str) (l : list A) :
  StronglySorted (key_le key) l -> sorted key l = l.
Proof.
  induction 1 as [|x l Hl IH Hx]; [reflexivity|].
  cbn [sorted]. rewrite IH.
  destruct l as [|y l]; [reflexivity|].
  cbn [insert]. inversion Hx as [|? ? Hxy _]; subst.
  unfold key_le, str_le in Hxy. rewrite Hxy. reflexivity.
Qed.

Lemma sort_key_set_defaults (msg : Message) :
  sort_key (set_defaults msg) = sort_key msg.
Proof.
  unfold sort_key, set_defaults; cbn [timestamp].
  destruct (timestamp msg); reflexivity.
Qed.

Lemma sort_messages_ext (messages : list loc) (h h' : heap) :
  (forall l, sort_key (h' l) = sort_key (h l)) ->
  sort_messages messages h' = sort_messages messages h.
Proof. intros E. unfold sort_messages. apply sorted_ext. exact E. Qed.

Lemma sort_messages_normalized (messages ms : list loc) (h : heap) :
  sort_messages messages
    (fold_left (fun h msg => upd h msg (set_defaults (h msg))) ms h)
  = sort_messages messages h.
Proof.
  apply sort_messages_ext. intros l. rewrite normalize_loop.
  destruct (existsb _ _); [apply sort_key_set_defaults | reflexivity].
Qed.

(** X8.  Sorting composes: [sort_messages] keeps the number of messages,
    leaves a list it has sorted as it is, and gives the same order before
    and after [normalize_thread] has filled the missing keys. *)
Theorem sort_messages_idempotent :
  forall (messages : list loc) (h : heap) (thread : option Thread),
    length (sort_messages messages h) = length messages
    /\ sort_messages (sort_messages messages h) h = sort_messages messages h
    /\ sort_messages messages (fst (normalize_thread thread h))
       = sort_messages messages h.
Proof.
  intros ms h t. split; [|split].
  - symmetry. apply Permutation_length. unfold sort_messages.
    apply sorted_perm.
  - unfold sort_messages. apply sorted_id. apply sorted_sorted.
  - unfold normalize_thread. cbn [fst]. apply sort_messages_normalized.
Qed.

Lemma sorted_unique {A} (key : A -> str) (l1 l2 : list A) :
  StronglySorted (key_le key) l1 -> StronglySorted (key_le key) l2 ->
  Permutation l1 l2 -> NoDup (map key l1) -> l1 = l2.
Proof.
  intros S1; revert l2.
  induction S1 as [|x l1 S1 IH Hx]; intros l2 S2 P N.
  - apply Permutation_nil in P. subst. reflexivity.
  - destruct l2 as [|y l2];
      [apply Permutation_sym, Permutation_nil in P; discriminate|].
    inversion S2 as [|? ? S2' Hy]; subst.
    inversion N as [|? ? Nx N']; subst.
    assert (Exy : x = y).
    { assert (Hin : In x (y :: l2))
        by (eapply Permutation_in; [exact P | left; reflexivity]).
      destruct Hin as [E|Hin]; [symmetry; exact E|].
      assert (Hin' : In y (x :: l1))
        by (eapply Permutation_in;
            [apply Permutation_sym; exact P | left; reflexivity]).
      destruct Hin' as [E|Hin']; [exact E|].
      exfalso. apply Nx.
      rewrite Forall_forall in Hx, Hy.
      assert (Ek : key x = key y)
        by (apply str_lt_connex; [apply Hy, Hin | apply Hx, Hin']).
      rewrite Ek. apply in_map. exact Hin'. }
    subst y. f_equal. apply IH; [exact S2' | | exact N'].
    eapply Permutation_cons_inv. exact P.
Qed.

End MoreSortFacts.

Section MoreThreadIdFacts.

Lemma encode_utf8_raise (s : str) (e : exn) :
  encode_utf8 s = Raise e -> e = UnicodeEncodeError.
Proof.
  induction s as [|c s IH]; simpl; [discriminate|].
  destruct (is_scalar c); [|intros E; injection E as <-; reflexivity].
  destruct (encode_utf8 s); simpl; [discriminate|].
  intros E; injection E as <-. apply IH. reflexivity.
Qed.

Lemma encode_utf8_fails (s : str) :
  Spec.encodable s = false -> encode_utf8 s = Raise UnicodeEncodeError.
Proof.
  induction s as [|c s IH]; simpl; [discriminate|].
  destruct (is_scalar c); [|reflexivity].
  simpl. intros H. rewrite (IH H). reflexivity.
Qed.

(** The digest of a string: defined exactly on the strings that have a
    UTF-8 encoding. *)
Lemma digest_cases (s : str) :
  if Spec.encodable s
  then exists tid, Spec.digest s = Ok tid /\ length tid = 40%nat
  else Spec.digest s = Raise UnicodeEncodeError.
Proof.
  destruct (Spec.encodable s) eqn:E.
  - destruct (digest_ok s E) as [bs [_ ->]].
    eexists. split; [reflexivity | apply hexdigest_length].
  - unfold Spec.digest. rewrite (encode_utf8_fails s E). reflexivity.
Qed.

(** [compute_thread_id] as a decision table. *)
Lemma compute_thread_id_table (subject : str) (ms : list loc) (h : heap) :
  compute_thread_id subject ms h
  = if Props.at_an_end Props.is_absent ms h then Raise KeyError
    else if Props.at_an_end Props.is_null ms h then Raise TypeError
    else Spec.digest (Props.basis subject ms h).
Proof.
  unfold compute_thread_id, Props.at_an_end, Props.basis, Spec.digest, fmap.
  destruct ms as [|l ms].
  { cbn [bind add_str Spec.first_timestamp Spec.last_timestamp rev].
    rewrite <- app_assoc. reflexivity. }
  rewrite last_timestamp_last.
  unfold Spec.first_timestamp, Spec.timestamp_text.
  destruct (timestamp (h l)),
    (timestamp (h (List.last (l :: ms) O)));
    cbn [getitem bind add_str Props.is_absent Props.is_null orb];
    try reflexivity.
  rewrite <- app_assoc. reflexivity.
Qed.

(** X9.  [compute_thread_id] on its own: it raises [KeyError] exactly when
    the first or the last message has no timestamp key, [TypeError] exactly
    when both have the key and one of the two is bound to [None], and in
    every other case it is the digest of subject, first and last timestamp,
    which fails only on a string without UTF-8 encoding.  The messages in
    between are not read. *)
Theorem compute_thread_id_errors :
  forall (subject : str) (messages_sorted : list loc) (h : heap),
    let result := compute_thread_id subject messages_sorted h in
    let missing := Props.at_an_end Props.is_absent messages_sorted h in
    let none := Props.at_an_end Props.is_null messages_sorted h in
    (result = Raise KeyError <-> missing = true)
    /\ (result = Raise TypeError <-> missing = false /\ none = true)
    /\ (missing = false -> none = false ->
        result = Spec.digest (Props.basis subject messages_sorted h))
    /\ (forall l mid l',
           messages_sorted = l :: mid ++ [l'] ->
           result = compute_thread_id subject [l; l'] h).
Proof.
  intros subject ms h result missing none. subst result missing none.
  rewrite compute_thread_id_table.
  pose proof (digest_cases (Props.basis subject ms h)) as D.
  split; [|split; [|split]].
  - destruct (Props.at_an_end Props.is_absent ms h);
      [tauto|]. split; [|discriminate].
    destruct (Props.at_an_end Props.is_null ms h); [discriminate|].
    destruct (Spec.encodable _); [destruct D as [tid [-> _]]|rewrite D];
      discriminate.
  - destruct (Props.at_an_end Props.is_absent ms h).
    { split; [discriminate | intros [H _]; discriminate]. }
    destruct (Props.at_an_end Props.is_null ms h); [tauto|].
    split; [|intros [_ H]; discriminate].
    destruct (Spec.encodable _); [destruct D as [tid [-> _]]|rewrite D];
      discriminate.
  - intros -> ->. reflexivity.
  - intros l mid l' ->.
    rewrite (compute_thread_id_table subject [l; l'] h).
    unfold Props.at_an_end, Props.basis, Spec.first_timestamp.
    rewrite !last_timestamp_last.
    change (l :: mid ++ [l']) with ((l :: mid) ++ [l']).
    rewrite last_last. reflexivity.
Qed.

(** X10.  The string that is digested is a plain concatenation, so the
    identifier cannot tell where the subject ends: two threads whose
    subject, first and last timestamp concatenate to the same string get
    the same identifier. *)
Theorem thread_id_concatenation :
  forall (subject subject' : str) (ms ms' : list loc) (h h' : heap),
    Props.at_an_end Props.is_absent ms h = false ->
    Props.at_an_end Props.is_null ms h = false ->
    Props.at_an_end Props.is_absent ms' h' = false ->
    Props.at_an_end Props.is_null ms' h' = false ->
    Props.basis subject ms h = Props.basis subject' ms' h' ->
    compute_thread_id subject ms h = compute_thread_id subject' ms' h'.
Proof.
  intros s s' ms ms' h h' A N A' N' E.
  rewrite !compute_thread_id_table, A, N, A', N', E. reflexivity.
Qed.

End MoreThreadIdFacts.

(** The subject "ab" without messages, and the subject "a" with the
    timestamps "" and "b". *)
Lemma thread_id_concatenation_witness :
  compute_thread_id (u "ab") [] (Examples.heap_of [])
  = compute_thread_id (u "a") [0; 1]%nat
      (Examples.heap_of [Props.stamp ""; Props.stamp "b"]).
Proof.
  apply (thread_id_concatenation (u "ab") (u "a") [] [0; 1]%nat
           (Examples.heap_of [])
           (Examples.heap_of [Props.stamp ""; Props.stamp "b"]));
    reflexivity.
Defined.

(** A thread of three messages: the one in the middle is not read. *)
Lemma compute_thread_id_errors_witness :
  compute_thread_id (u "s") [0; 1; 2]%nat
    (Examples.heap_of [Props.stamp "a"; Examples.null_timestamp;
                       Props.stamp "c"])
  = compute_thread_id (u "s") [0; 2]%nat
      (Examples.heap_of [Props.stamp "a"; Examples.null_timestamp;
                         Props.stamp "c"]).
Proof.
  refine (proj2 (proj2 (proj2
    (compute_thread_id_errors (u "s") [0; 1; 2]%nat
       (Examples.heap_of [Props.stamp "a"; Examples.null_timestamp;
                          Props.stamp "c"])))) 0%nat [1%nat] 2%nat _).
  reflexivity.
Defined.

(* ================================================================== *)
(** * Further properties of [classify_thread] *)
(* ================================================================== *)

Section MoreClassifyFacts.
Context {U : tables}.

Lemma normalized_at (ms : list loc) (h : heap) (l : loc) :
  Props.normalized ms h l
  = if existsb (Nat.eqb l) ms then set_defaults (h l) else h l.
Proof. apply normalize_loop. Qed.

Lemma classify_thread_on (data : option Data) (h : heap) :
  classify_thread data h
  = (Props.normalized (Spec.thread_messages data) h,
     Props.classify_on (Spec.thread_subject data)
       (Spec.thread_messages data)
       (Props.normalized (Spec.thread_messages data) h)).
Proof. rewrite classify_thread_unfold. reflexivity. Qed.

Lemma classify_on_ext (subject : str) (ms : list loc) (h h' : heap) :
  (forall l, h' l = h l) ->
  Props.classify_on subject ms h' = Props.classify_on subject ms h.
Proof.
  intros E. unfold Props.classify_on.
  rewrite (sort_messages_ext ms h h') by (intros l; rewrite E; reflexivity).
  rewrite (compute_thread_id_ext subject (sort_messages ms h) h h')
    by (intros l; rewrite E; reflexivity).
  rewrite (map_ext h' h E). reflexivity.
Qed.

Lemma normalized_twice (ms : list loc) (h : heap) (l : loc) :
  Props.normalized ms (Props.normalized ms h) l = Props.normalized ms h l.
Proof.
  rewrite !normalized_at.
  destruct (existsb _ _); [apply set_defaults_idem | reflexivity].
Qed.

(** X11.  Classifying twice: a second call of [classify_thread] on the
    data the first call has normalized returns the same result and writes
    nothing new. *)
Theorem classify_thread_again :
  forall (data : option Data) (h : heap),
    let first := classify_thread data h in
    let second := classify_thread data (fst first) in
    snd second = snd first
    /\ forall l, fst second l = fst first l.
Proof.
  intros data h first second. subst first second.
  rewrite !classify_thread_on. cbn [fst snd]. split.
  - apply classify_on_ext. apply normalized_twice.
  - apply normalized_twice.
Qed.

(** X12.  A missing key and [None] are read alike at the top of the
    document: two documents with the same subject text and the same message
    list are classified alike, whether subject and messages are missing,
    [None] or empty, and whether the thread itself is missing, [None] or
    [{}]. *)
Theorem classify_thread_reads_subject_and_messages :
  forall (data data' : option Data) (h : heap),
    Spec.thread_subject data = Spec.thread_subject data' ->
    Spec.thread_messages data = Spec.thread_messages data' ->
    classify_thread data h = classify_thread data' h.
Proof.
  intros data data' h Es Em. rewrite !classify_thread_on, Es, Em.
  reflexivity.
Qed.

Lemma existsb_perm (l : loc) (ms ms' : list loc) :
  Permutation ms ms' ->
  existsb (Nat.eqb l) ms = existsb (Nat.eqb l) ms'.
Proof.
  intros P. apply eq_true_iff_eq. rewrite !existsb_exists.
  split; intros [x [Hin E]]; exists x; (split; [|exact E]).
  - exact (Permutation_in x P Hin).
  - exact (Permutation_in x (Permutation_sym P) Hin).
Qed.

(** X13.  The order in which a document lists its messages does not matter
    as long as their timestamps differ from one another (a missing or
    [None] timestamp counting as the empty string): the result and the
    heap are the same for every listing. *)
Theorem classify_thread_order_independent :
  forall (data data' : option Data) (h : heap),
    Spec.thread_subject data = Spec.thread_subject data' ->
    Permutation (Spec.thread_messages data) (Spec.thread_messages data') ->
    NoDup (map (fun l => Spec.timestamp_text (h l))
               (Spec.thread_messages data)) ->
    snd (classify_thread data h) = snd (classify_thread data' h)
    /\ forall l, fst (classify_thread data h) l
                 = fst (classify_thread data' h) l.
Proof.
  intros data data' h Es P N.
  rewrite !classify_thread_on. cbn [fst snd]. rewrite <- Es.
  set (ms := Spec.thread_messages data) in *.
  set (ms' := Spec.thread_messages data') in *.
  assert (Hh : forall l,
             Props.normalized ms' h l = Props.normalized ms h l).
  { intros l. rewrite !normalized_at, (existsb_perm l P). reflexivity. }
  split; [|intros l; symmetry; apply Hh].
  rewrite (classify_on_ext _ ms' _ _ Hh).
  unfold Props.classify_on.
  replace (sort_messages ms' (Props.normalized ms h))
    with (sort_messages ms (Props.normalized ms h)); [reflexivity|].
  unfold Props.normalized.
  rewrite !sort_messages_normalized, !sort_messages_text.
  apply sorted_unique with (key := fun l => Spec.timestamp_text (h l)).
  - apply sorted_sorted.
  - apply sorted_sorted.
  - rewrite <- !sorted_perm. exact P.
  - eapply Permutation_NoDup; [|exact N].
    apply Permutation_map. apply sorted_perm.
Qed.

Lemma at_an_end_ext (p : field str -> bool) (ss : list loc) (h h' : heap) :
  (forall l, In l ss -> p (timestamp (h' l)) = p (timestamp (h l))) ->
  Props.at_an_end p ss h' = Props.at_an_end p ss h.
Proof.
  intros E. unfold Props.at_an_end. destruct ss as [|l ss]; [reflexivity|].
  rewrite (E l) by (left; reflexivity).
  rewrite (E (List.last (l :: ss) O)); [reflexivity|].
  destruct (exists_last (l := l :: ss)) as [pre [z Ez]]; [discriminate|].
  rewrite Ez, last_last. apply in_or_app. right. left. reflexivity.
Qed.

Lemma basis_ext (s : str) (ss : list loc) (h h' : heap) :
  (forall l, In l ss ->
             Spec.timestamp_text (h' l) = Spec.timestamp_text (h l)) ->
  Props.basis s ss h' = Props.basis s ss h.
Proof.
  intros E. unfold Props.basis. destruct ss as [|l ss]; [reflexivity|].
  rewrite !last_timestamp_last. cbn [Spec.first_timestamp].
  rewrite (E l) by (left; reflexivity).
  rewrite (E (List.last (l :: ss) O)); [reflexivity|].
  destruct (exists_last (l := l :: ss)) as [pre [z Ez]]; [discriminate|].
  rewrite Ez, last_last. apply in_or_app. right. left. reflexivity.
Qed.

(** The identifier part of [classify_thread], in terms of the heap the
    caller passes in. *)
Lemma classify_thread_table (data : option Data) (h : heap) :
  let ss := sort_messages (Spec.thread_messages data) h in
  fmap thread_id (snd (classify_thread data h))
  = if Props.at_an_end Props.is_null ss h then Raise TypeError
    else Spec.digest (Props.basis (Spec.thread_subject data) ss h).
Proof.
  intros ss. rewrite classify_thread_on. cbn [snd].
  set (ms := Spec.thread_messages data) in *.
  set (h1 := Props.normalized ms h).
  unfold Props.classify_on.
  replace (sort_messages ms h1) with ss
    by (symmetry; apply sort_messages_normalized).
  assert (Hin : forall l, In l ss -> h1 l = set_defaults (h l)).
  { intros l Hl. unfold h1. rewrite normalized_at.
    replace (existsb (Nat.eqb l) ms) with true; [reflexivity|].
    symmetry. apply existsb_exists. exists l.
    split; [|apply Nat.eqb_refl].
    eapply Permutation_in; [|exact Hl].
    symmetry. unfold ss, sort_messages. apply sorted_perm. }
  rewrite compute_thread_id_table.
  rewrite (at_an_end_ext Props.is_absent ss (fun l => set_defaults (h l)) h1)
    by (intros l Hl; rewrite (Hin l Hl); reflexivity).
  rewrite (at_an_end_ext Props.is_null ss h h1).
  2:{ intros l Hl. rewrite (Hin l Hl). cbn [set_defaults timestamp].
      destruct (timestamp (h l)); reflexivity. }
  rewrite (basis_ext _ ss h h1).
  2:{ intros l Hl. rewrite (Hin l Hl). unfold Spec.timestamp_text.
      cbn [set_defaults timestamp]. destruct (timestamp (h l)); reflexivity. }
  replace (Props.at_an_end Props.is_absent ss
             (fun l => set_defaults (h l))) with false.
  2:{ unfold Props.at_an_end. destruct ss as [|l ss']; [reflexivity|].
      cbn [set_defaults timestamp].
      destruct (timestamp (h l)),
        (timestamp (h (List.last (l :: ss') O))); reflexivity. }
  destruct (Props.at_an_end Props.is_null ss h); [reflexivity|].
  destruct (Spec.digest _); reflexivity.
Qed.

(** X14.  The ways [classify_thread] ends, read off the caller's data.  It
    never raises [KeyError].  It raises [TypeError] exactly when the first
    or the last message in sorted order has a timestamp bound to [None].
    Otherwise it raises [UnicodeEncodeError] exactly when subject, first
    and last timestamp hold a code point without UTF-8 encoding, and
    returns in every other case, with an identifier of forty characters. *)
Theorem classify_thread_outcomes :
  forall (data : option Data) (h : heap),
    let ss := sort_messages (Spec.thread_messages data) h in
    let none := Props.at_an_end Props.is_null ss h in
    let text := Props.basis (Spec.thread_subject data) ss h in
    let result := snd (classify_thread data h) in
    result <> Raise KeyError
    /\ (result = Raise TypeError <-> none = true)
    /\ (result = Raise UnicodeEncodeError
        <-> none = false /\ Spec.encodable text = false)
    /\ ((exists c, result = Ok c /\ length (thread_id c) = 40%nat)
        <-> none = false /\ Spec.encodable text = true).
Proof.
  intros data h ss none text result.
  pose proof (classify_thread_table data h) as T. cbv zeta in T.
  fold ss in T. fold none in T. fold text in T. fold result in T.
  pose proof (digest_cases text) as D.
  clearbody result none text.
  assert (Hcases :
            (none = true /\ result = Raise TypeError)
            \/ (none = false /\ Spec.encodable text = false
                /\ result = Raise UnicodeEncodeError)
            \/ (none = false /\ Spec.encodable text = true
                /\ exists c, result = Ok c
                             /\ length (thread_id c) = 40%nat)).
  { destruct none.
    - left. split; [reflexivity|].
      destruct result as [c|e]; [discriminate|].
      cbn in T. injection T as ->. reflexivity.
    - right. destruct (Spec.encodable text).
      + right. destruct D as [tid [D Hlen]]. rewrite D in T.
        destruct result as [c|e]; [|discriminate].
        cbn in T. injection T as T.
        repeat split. exists c. split; [reflexivity|].
        rewrite T. exact Hlen.
      + left. rewrite D in T. destruct result as [c|e]; [discriminate|].
        cbn in T. injection T as ->. repeat split. }
  destruct Hcases as [[-> ->] | [(-> & -> & ->) | (-> & -> & c & -> & Hc)]].
  - repeat split; intros; try discriminate; try reflexivity;
      repeat match goal with
             | H : _ /\ _ |- _ => destruct H
             | H : exists _, _ |- _ => destruct H
             end; discriminate.
  - repeat split; intros; try discriminate; try reflexivity;
      repeat match goal with
             | H : _ /\ _ |- _ => destruct H
             | H : exists _, _ |- _ => destruct H
             end; discriminate.
  - split; [discriminate|].
    split; [split; [discriminate | intros H; discriminate H]|].
    split; [split; [discriminate | intros [_ H]; discriminate H]|].
    split; [intros _; split; reflexivity|].
    intros _. exists c. split; [reflexivity | exact Hc].
Qed.

End MoreClassifyFacts.

(** A document with a [None] subject and no messages, and no document. *)
Lemma classify_thread_reads_subject_and_messages_witness :
  classify_thread
    (Some {| thread := Val {| subject := Null; messages := Val [] |} |})
    (Examples.heap_of [])
  = classify_thread None (Examples.heap_of []).
Proof.
  apply (classify_thread_reads_subject_and_messages
           (Some {| thread := Val {| subject := Null;
                                     messages := Val [] |} |})
           None (Examples.heap_of [])); reflexivity.
Defined.

(** Scenario 3 with its two mails listed in either order. *)
Lemma classify_thread_order_independent_witness :
  snd (classify_thread
         (Some {| thread := Val {| subject := Absent;
                                   messages := Val [0; 1]%nat |} |})
         (Examples.heap_of Examples.move_then_confirm))
  = snd (classify_thread
           (Some {| thread := Val {| subject := Absent;
                                     messages := Val [1; 0]%nat |} |})
           (Examples.heap_of Examples.move_then_confirm)).
Proof.
  refine (proj1 (classify_thread_order_independent
                   (Some {| thread := Val {| subject := Absent;
                                             messages := Val [0; 1]%nat |} |})
                   (Some {| thread := Val {| subject := Absent;
                                             messages := Val [1; 0]%nat |} |})
                   (Examples.heap_of Examples.move_then_confirm) _ _ _)).
  - reflexivity.
  - apply perm_swap.
  - vm_compute. constructor.
    + intros [H|[]]. discriminate H.
    + constructor; [intros [] | constructor].
Defined.

(* ================================================================== *)
(** * The paste loop *)
(* ================================================================== *)

Section PasteFacts.
Context {U : tables}.

Import Interactive.

(** X15.  Option 2 of the interactive menu reads the pasted text up to its
    first blank line: the lines before it are kept in order, the blank line
    is consumed and what follows stays in the input; without a blank line
    everything is read up to the end of the input. *)
Theorem read_paste_stops_at_blank :
  forall (lines rest acc : list str) (b : str),
    forallb (fun line => negb (blank line)) lines = true ->
    read_paste lines acc = (acc ++ lines, [])
    /\ (blank b = true ->
        read_paste (lines ++ b :: rest) acc = (acc ++ lines, rest)
        /\ pasted (lines ++ b :: rest) = join [10] lines).
Proof.
  intros lines rest acc b H.
  assert (G : forall acc,
             read_paste lines acc = (acc ++ lines, [])
             /\ (blank b = true ->
                 read_paste (lines ++ b :: rest) acc = (acc ++ lines, rest))).
  { induction lines as [|line lines IH]; intros acc0.
    - cbn [read_paste app]. rewrite app_nil_r.
      split; [reflexivity|]. intros ->. reflexivity.
    - cbn [forallb] in H. apply andb_true_iff in H. destruct H as [Hl Hr].
      apply negb_true_iff in Hl. cbn [read_paste app]. rewrite Hl.
      destruct (IH Hr (acc0 ++ [line])) as [E1 E2].
      rewrite E1. rewrite <- app_assoc. split; [reflexivity|].
      intros Hb. rewrite (E2 Hb), <- app_assoc. reflexivity. }
  split; [apply G|]. intros Hb. split; [apply G, Hb|].
  unfold pasted. rewrite (proj2 (G []) Hb). reflexivity.
Qed.

End PasteFacts.

(** A pretty-printed document with an empty line in it. *)
Lemma read_paste_stops_at_blank_witness :
  Interactive.pasted [u "{"; u "  "; u "}"] = u "{".
Proof.
  refine (proj2 (proj2 (read_paste_stops_at_blank
                          [u "{"] [u "}"] [] (u "  ") _) _)).
  - reflexivity.
  - reflexivity.
Defined.

(* ================================================================== *)
(** * [str.encode("utf-8")] loses nothing *)
(* ================================================================== *)

Section Utf8Facts.

Lemma range_check (P : Z -> bool) (n : nat) :
  forallb P (map Z.of_nat (seq 0 n)) = true ->
  forall x, 0 <= x < Z.of_nat n -> P x = true.
Proof.
  intros H x Hx. rewrite forallb_forall in H. apply H.
  replace x with (Z.of_nat (Z.to_nat x)) by lia.
  apply in_map. apply in_seq. lia.
Qed.

(** A lead or continuation byte: the marker bits [mark] and the payload
    [x] do not overlap, and [mask] gives the payload back. *)
Lemma marker (mark mask : Z) (n : nat) :
  forallb (fun x => (Z.lor mark x =? mark + x)
                    && (Z.land (mark + x) mask =? x))
          (map Z.of_nat (seq 0 n)) = true ->
  forall x, 0 <= x < Z.of_nat n ->
            Z.lor mark x = mark + x /\ Z.land (mark + x) mask = x.
Proof.
  intros H x Hx. pose proof (@range_check _ n H x Hx) as E.
  apply andb_true_iff in E. rewrite !Z.eqb_eq in E. exact E.
Qed.

Lemma lead2 (x : Z) :
  0 <= x < 32 -> Z.lor 0xC0 x = 0xC0 + x /\ Z.land (0xC0 + x) 0x1F = x.
Proof. apply (marker 0xC0 0x1F 32). vm_compute. reflexivity. Qed.

Lemma lead3 (x : Z) :
  0 <= x < 16 -> Z.lor 0xE0 x = 0xE0 + x /\ Z.land (0xE0 + x) 0x0F = x.
Proof. apply (marker 0xE0 0x0F 16). vm_compute. reflexivity. Qed.

Lemma lead4 (x : Z) :
  0 <= x < 8 -> Z.lor 0xF0 x = 0xF0 + x /\ Z.land (0xF0 + x) 0x07 = x.
Proof. apply (marker 0xF0 0x07 8). vm_compute. reflexivity. Qed.

Lemma continuation (x : Z) :
  0 <= x < 64 -> Z.lor 0x80 x = 0x80 + x /\ Z.land (0x80 + x) 0x3F = x.
Proof. apply (marker 0x80 0x3F 64). vm_compute. reflexivity. Qed.

Lemma low6 (c : Z) : Z.land c 0x3F = c mod 64.
Proof. change 0x3F with (Z.ones 6). apply Z.land_ones. lia. Qed.

Lemma shift_div (c n : Z) : 0 <= n -> Z.shiftr c n = c / 2 ^ n.
Proof. intros H. apply Z.shiftr_div_pow2. exact H. Qed.

(** The bytes of one code point, with the bit operations turned into
    arithmetic. *)
Lemma encode_cp_arith (c : Z) :
  0 <= c <= 0x10FFFF ->
  encode_cp c
  = if c <? 0x80 then [c]
    else if c <? 0x800 then [0xC0 + c / 64; 0x80 + c mod 64]
    else if c <? 0x10000 then
      [0xE0 + c / 4096; 0x80 + (c / 64) mod 64; 0x80 + c mod 64]
    else [0xF0 + c / 262144; 0x80 + (c / 4096) mod 64;
          0x80 + (c / 64) mod 64; 0x80 + c mod 64].
Proof.
  intros Hc. unfold encode_cp.
  rewrite !low6, !shift_div by lia.
  change (2 ^ 6) with 64. change (2 ^ 12) with 4096.
  change (2 ^ 18) with 262144.
  assert (Hm : forall a, Z.lor 0x80 (a mod 64) = 0x80 + a mod 64).
  { intros a. apply continuation. apply Z.mod_pos_bound. lia. }
  rewrite !Hm.
  destruct (Z.ltb_spec c 0x80); [reflexivity|].
  destruct (Z.ltb_spec c 0x800).
  { assert (Hx : 0 <= c / 64 < 32)
      by (split; [apply Z.div_pos; lia | apply Z.div_lt_upper_bound; lia]).
    rewrite (proj1 (@lead2 (c / 64) Hx)). reflexivity. }
  destruct (Z.ltb_spec c 0x10000).
  { assert (Hx : 0 <= c / 4096 < 16)
      by (split; [apply Z.div_pos; lia | apply Z.div_lt_upper_bound; lia]).
    rewrite (proj1 (@lead3 (c / 4096) Hx)). reflexivity. }
  assert (Hx : 0 <= c / 262144 < 8)
    by (split; [apply Z.div_pos; lia | apply Z.div_lt_upper_bound; lia]).
  rewrite (proj1 (@lead4 (c / 262144) Hx)). reflexivity.
Qed.

Lemma is_scalar_range (c : Z) : is_scalar c = true -> 0 <= c <= 0x10FFFF.
Proof.
  unfold is_scalar. rewrite !andb_true_iff, !Z.leb_le. tauto.
Qed.

Lemma decode_encode_cp (c : Z) (bs : list Z) :
  0 <= c <= 0x10FFFF ->
  decode_utf8 (encode_cp c ++ bs) = c :: decode_utf8 bs.
Proof.
  intros Hc. rewrite encode_cp_arith by exact Hc.
  assert (Hm : forall a, Z.land (0x80 + a mod 64) 0x3F = a mod 64).
  { intros a. apply continuation. apply Z.mod_pos_bound. lia. }
  destruct (Z.ltb_spec c 0x80).
  { cbn [app decode_utf8].
    replace (c <? 0xC0) with true by (symmetry; apply Z.ltb_lt; lia).
    reflexivity. }
  destruct (Z.ltb_spec c 0x800).
  { assert (Hx : 0 <= c / 64 < 32)
      by (split; [apply Z.div_pos; lia | apply Z.div_lt_upper_bound; lia]).
    cbn [app decode_utf8].
    replace (0xC0 + c / 64 <? 0xC0) with false
      by (symmetry; apply Z.ltb_ge; lia).
    replace (0xC0 + c / 64 <? 0xE0) with true
      by (symmetry; apply Z.ltb_lt; lia).
    rewrite (proj2 (@lead2 (c / 64) Hx)), Hm. f_equal.
    pose proof (Z.div_mod c 64). lia. }
  destruct (Z.ltb_spec c 0x10000).
  { assert (Hx : 0 <= c / 4096 < 16)
      by (split; [apply Z.div_pos; lia | apply Z.div_lt_upper_bound; lia]).
    cbn [app decode_utf8].
    replace (0xE0 + c / 4096 <? 0xC0) with false
      by (symmetry; apply Z.ltb_ge; lia).
    replace (0xE0 + c / 4096 <? 0xE0) with false
      by (symmetry; apply Z.ltb_ge; lia).
    replace (0xE0 + c / 4096 <? 0xF0) with true
      by (symmetry; apply Z.ltb_lt; lia).
    rewrite (proj2 (@lead3 (c / 4096) Hx)), !Hm. f_equal.
    Z.div_mod_to_equations. lia. }
  assert (Hx : 0 <= c / 262144 < 8)
    by (split; [apply Z.div_pos; lia | apply Z.div_lt_upper_bound; lia]).
  cbn [app decode_utf8].
  replace (0xF0 + c / 262144 <? 0xC0) with false
    by (symmetry; apply Z.ltb_ge; lia).
  replace (0xF0 + c / 262144 <? 0xE0) with false
    by (symmetry; apply Z.ltb_ge; lia).
  replace (0xF0 + c / 262144 <? 0xF0) with false
    by (symmetry; apply Z.ltb_ge; lia).
  rewrite (proj2 (@lead4 (c / 262144) Hx)), !Hm. f_equal.
  Z.div_mod_to_equations. lia.
Qed.

Lemma encode_cp_bytes (c : Z) :
  0 <= c <= 0x10FFFF ->
  Forall (fun b => 0 <= b < 256) (encode_cp c)
  /\ (1 <= length (encode_cp c) <= 4)%nat.
Proof.
  intros Hc. rewrite encode_cp_arith by exact Hc.
  assert (Hm : forall a, 0 <= 0x80 + a mod 64 < 256)
    by (intros a; pose proof (Z.mod_pos_bound a 64); lia).
  destruct (Z.ltb_spec c 0x80);
    [split; [repeat constructor; lia | simpl; lia]|].
  destruct (Z.ltb_spec c 0x800).
  { assert (Hx : 0 <= c / 64 < 32)
      by (split; [apply Z.div_pos; lia | apply Z.div_lt_upper_bound; lia]).
    split; [repeat constructor; try apply Hm; lia | simpl; lia]. }
  destruct (Z.ltb_spec c 0x10000).
  { assert (Hx : 0 <= c / 4096 < 16)
      by (split; [apply Z.div_pos; lia | apply Z.div_lt_upper_bound; lia]).
    split; [repeat constructor; try apply Hm; lia | simpl; lia]. }
  assert (Hx : 0 <= c / 262144 < 8)
    by (split; [apply Z.div_pos; lia | apply Z.div_lt_upper_bound; lia]).
  split; [repeat constructor; try apply Hm; lia | simpl; lia].
Qed.

(** X16.  The UTF-8 bytes [compute_thread_id] hashes determine the string
    they come from: decoding gives it back, so two different strings never
    have the same bytes.  Every byte is below 256, and a string of [n] code
    points takes between [n] and [4 n] bytes. *)
Theorem encode_utf8_round_trip :
  forall (s : str) (bytes : list Z),
    encode_utf8 s = Ok bytes ->
    decode_utf8 bytes = s
    /\ Forall (fun b => 0 <= b < 256) bytes
    /\ (length s <= length bytes <= 4 * length s)%nat
    /\ (forall s', encode_utf8 s' = Ok bytes -> s' = s).
Proof.
  assert (R : forall s bytes,
             encode_utf8 s = Ok bytes ->
             decode_utf8 bytes = s
             /\ Forall (fun b => 0 <= b < 256) bytes
             /\ (length s <= length bytes <= 4 * length s)%nat).
  { induction s as [|c s IH]; intros bytes E.
    - injection E as <-. repeat split; auto.
    - cbn [encode_utf8] in E.
      destruct (is_scalar c) eqn:Hc; [|discriminate].
      destruct (encode_utf8 s) as [bs|]; [|discriminate].
      cbn [bind] in E. injection E as <-.
      apply is_scalar_range in Hc.
      destruct (IH bs eq_refl) as (Hd & Hb & Hl).
      destruct (@encode_cp_bytes c Hc) as [Hcb Hcl].
      split; [|split].
      + rewrite decode_encode_cp by exact Hc. rewrite Hd. reflexivity.
      + apply Forall_app. split; assumption.
      + rewrite length_app. cbn [length]. lia. }
  intros s bytes E. destruct (R s bytes E) as (Hd & Hb & Hl).
  repeat split; try assumption; try lia.
  intros s' E'. destruct (R s' bytes E') as (Hd' & _). congruence.
Qed.

End Utf8Facts.

(** A word with a three-byte letter in it. *)
Lemma encode_utf8_round_trip_witness :
  decode_utf8 [104; 225; 187; 141; 112] = [104; 7885; 112].
Proof.
  refine (proj1 (@encode_utf8_round_trip [104; 7885; 112]
                   [104; 225; 187; 141; 112] _)).
  reflexivity.
Defined.

(* ================================================================== *)
(** * The further properties at work *)
(* ================================================================== *)

(** "No rush" and "today" in one mail: urgent. *)
Lemma urgency_precedence_witness :
  urgency (classify_labels []
             [Props.bare "No rush, but I need it today"])
  = URGENT_24H.
Proof.
  refine (proj2 (proj1 (urgency_precedence []
                          [Props.bare "No rush, but I need it today"])) _).
  vm_compute. reflexivity.
Defined.

(** Two messages without a body and without a subject: not NEW. *)
Lemma thread_state_cascade_witness :
  thread_state (classify_labels []
                  [Props.stamp "2024-05-01"; Props.stamp "2024-05-02"])
  <> NEW.
Proof.
  refine (proj2 (proj2 (thread_state_cascade []
                          [Props.stamp "2024-05-01";
                           Props.stamp "2024-05-02"])) _).
  simpl. lia.
Defined.

(** Scenario 3: a confirmed time makes the request SCHEDULE/MEET. *)
Lemma label_fields_consistent_witness :
  request_type
    (classify_labels [] (sorted sort_key Examples.move_then_confirm))
  = SCHEDULE_MEET.
Proof.
  refine (proj1 (label_fields_consistent
                   [] (sorted sort_key Examples.move_then_confirm)) _).
  vm_compute. discriminate.
Defined.

(** The thread whose only message has a [None] timestamp. *)
Lemma classify_thread_outcomes_witness :
  snd (classify_thread (Examples.doc Absent 1)
                       (Examples.heap_of [Examples.null_timestamp]))
  = Raise TypeError.
Proof.
  refine (proj2 (proj1 (proj2
    (classify_thread_outcomes (Examples.doc Absent 1)
       (Examples.heap_of [Examples.null_timestamp])))) _).
  reflexivity.
Defined.
